(** * Extraction-Code.py: the Spotify playlist extractor

    A shallow embedding of [lambda_handler] (src/Extraction-Code.py) and of
    the Python library functions whose results the handler combines:
    [str.split], list indexing, [str(datetime)], [json.dumps] and, for the
    round trip of the stored body, [json.loads].  The limits of the Python
    interpreter that make [json.dumps] raise (digits of an int, depth of
    nesting) are a parameter of the environment.

    The handler talks to the outside world only through library calls
    (os.environ, spotipy, boto3, datetime.now).  These are kept as the nodes
    of a finite call tree; an environment answers each call with a value or
    an exception, and running the tree records the calls in a trace. *)

From Stdlib Require Import String Ascii NArith ZArith Lia.
From stdpp Require Import base list numbers gmap.

Set Default Proof Using "Type".

(* ===================================================================== *)
(** ** Python strings *)
(* ===================================================================== *)

(** A Python [str] is a sequence of Unicode code points. *)
Definition str := list N.

(** A string literal of the source, character by character. *)
Definition lit (s : string) : str := map N_of_ascii (list_ascii_of_string s).

Module Char.
Definition quote : N := 34.       (* double quote *)
Definition backslash : N := 92.   (* backslash *)
Definition slash : N := 47.       (* / *)
Definition zero : N := 48.        (* 0 *)
Definition minus : N := 45.       (* - *)
Definition dot : N := 46.         (* . *)
Definition colon : N := 58.       (* : *)
Definition comma : N := 44.       (* , *)
Definition space : N := 32.       (* space *)
Definition lbracket : N := 91.    (* [ *)
Definition rbracket : N := 93.    (* ] *)
Definition lbrace : N := 123.     (* { *)
Definition rbrace : N := 125.     (* } *)
Definition upper_T : N := 84.     (* T *)
End Char.

(** [s.split(sep)] for a one-character separator, as in the source's
    [playlist_link.split('/')]: the pieces between the separators, empty
    pieces included; the result is never empty. *)
Fixpoint split_from (sep : N) (cur : str) (s : str) : list str :=
  match s with
  | [] => [rev cur]
  | c :: s' =>
      if (c =? sep)%N then rev cur :: split_from sep [] s'
      else split_from sep (c :: cur) s'
  end.

Definition split (sep : N) (s : str) : list str := split_from sep [] s.

(** [l[i]] on a Python list: a negative index counts from the end;
    [None] stands for IndexError. *)
Definition py_index {A} (l : list A) (i : Z) : option A :=
  let n := Z.of_nat (length l) in
  let j := (if i <? 0 then i + n else i)%Z in
  if ((j <? 0) || (n <=? j))%Z then None else l !! Z.to_nat j.

(* ===================================================================== *)
(** ** Decimal rendering of integers *)
(* ===================================================================== *)

Definition digit (d : N) : N := (Char.zero + d)%N.

(** The decimal digits of [n], least significant first. *)
Fixpoint dec_rev (fuel : nat) (n : N) : str :=
  match fuel with
  | O => []
  | S f =>
      digit (n mod 10) ::
      (if (n / 10 =? 0)%N then [] else dec_rev f (n / 10))
  end.

(** [str(n)] for a non-negative int. *)
Definition str_N (n : N) : str :=
  rev (dec_rev (S (N.to_nat (N.log2 n))) n).

(** [str(z)] for an int. *)
Definition str_int (z : Z) : str :=
  if (z <? 0)%Z then Char.minus :: str_N (Z.abs_N z) else str_N (Z.to_N z).

(** ["%0<w>d" % n]: at least [w] characters, padded with zeros on the left. *)
Definition fmt_0d (w : nat) (n : N) : str :=
  let s := str_N n in repeat Char.zero (w - length s) ++ s.

(** Exactly [w] decimal digits of [n], the low ones. *)
Fixpoint fixed (w : nat) (n : N) : str :=
  match w with
  | O => []
  | S w' => fixed w' (n / 10) ++ [digit (n mod 10)]
  end.

(* ===================================================================== *)
(** ** datetime *)
(* ===================================================================== *)

(** A naive [datetime.datetime], as [datetime.now()] returns it. *)
Record datetime := mk_datetime {
  year : N; month : N; day : N;
  hour : N; minute : N; second : N; microsecond : N
}.

Definition is_leap (y : N) : bool :=
  ((y mod 4 =? 0) && (negb (y mod 100 =? 0) || (y mod 400 =? 0)))%N.

Definition days_in_month (y m : N) : N :=
  if (m =? 2)%N then (if is_leap y then 29 else 28)%N
  else if ((m =? 4) || (m =? 6) || (m =? 9) || (m =? 11))%N then 30%N
  else 31%N.

(** The field ranges every [datetime] object satisfies. *)
Definition valid_datetime (t : datetime) : Prop :=
  (1 <= year t <= 9999 /\ 1 <= month t <= 12 /\
   1 <= day t <= days_in_month (year t) (month t) /\
   hour t < 24 /\ minute t < 60 /\ second t < 60 /\
   microsecond t < 1000000)%N.

(** [_format_time] with timespec 'auto': the fraction is printed only when
    the microsecond field is not zero. *)
Definition format_time (hh mm ss us : N) : str :=
  fmt_0d 2 hh ++ [Char.colon] ++ fmt_0d 2 mm ++ [Char.colon] ++ fmt_0d 2 ss ++
  (if (us =? 0)%N then [] else [Char.dot] ++ fmt_0d 6 us).

(** [datetime.isoformat(sep)] of a naive datetime. *)
Definition isoformat (sep : N) (t : datetime) : str :=
  fmt_0d 4 (year t) ++ [Char.minus] ++ fmt_0d 2 (month t) ++ [Char.minus] ++
  fmt_0d 2 (day t) ++ [sep] ++
  format_time (hour t) (minute t) (second t) (microsecond t).

(** [str(t)] is [t.isoformat(sep=' ')]. *)
Definition str_datetime (t : datetime) : str := isoformat Char.space t.

(* ===================================================================== *)
(** ** Exceptions and the interpreter's limits *)
(* ===================================================================== *)

(** A Python exception: its class and message. *)
Record exn := mk_exn { exn_class : string; exn_message : string }.

(** The two limits of the interpreter that the json module runs into:
    [sys.get_int_max_str_digits()], 4300 unless configured and 0 for no
    limit, and the number of nested calls left before RecursionError when
    the encoder or the decoder is entered. *)
Record interpreter := mk_interpreter {
  max_str_digits : nat;
  recursion_headroom : nat
}.

(** Converting between an int of [digits] decimal digits and a str is
    refused (ValueError). *)
Definition exceeds_digits (I : interpreter) (digits : nat) : bool :=
  (0 <? max_str_digits I)%nat && (max_str_digits I <? digits)%nat.

(** The two exceptions of [json.dumps] met here; the message of the first
    is abridged, CPython's also quotes the limit. *)
Definition ValueError_digits : exn :=
  mk_exn "ValueError" "Exceeds the limit for integer string conversion".
Definition RecursionError : exn :=
  mk_exn "RecursionError" "maximum recursion depth exceeded while encoding a JSON object".

(* ===================================================================== *)
(** ** JSON documents as Python values *)
(* ===================================================================== *)

(** The Python values a decoded JSON document is made of.  A [dict] keeps
    its keys in insertion order; numbers are ints (a float is outside this
    model). *)
Unset Elimination Schemes.
Inductive pyvalue : Type :=
| PyNone
| PyBool (b : bool)
| PyInt (z : Z)
| PyStr (s : str)
| PyList (l : list pyvalue)
| PyDict (d : list (str * pyvalue)).
Set Elimination Schemes.

(** [d[k] = v] on a dict: an existing key keeps its place. *)
Fixpoint dict_set {V} (d : list (str * V)) (k : str) (v : V) : list (str * V) :=
  match d with
  | [] => [(k, v)]
  | (k', v') :: d' =>
      if decide (k' = k) then (k, v) :: d' else (k', v') :: dict_set d' k v
  end.

(** [dict(pairs)]. *)
Definition dict_of_pairs {V} (pairs : list (str * V)) : list (str * V) :=
  fold_left (fun d kv => dict_set d (fst kv) (snd kv)) pairs [].

Module Json.

(** *** json.dumps, default arguments: the text [dumps] it returns when
    it returns, and the exception [dumps_error] it raises when it does not
    ([ensure_ascii=True], separators [", "] and [": "], no indent) *)

Definition hex_digit (d : N) : N := (if d <? 10 then 48 + d else 87 + d)%N.

(** ['{0:04x}'.format(n)], for the [n < 0x10000] it is applied to. *)
Definition fmt_04x (n : N) : str :=
  [hex_digit (n / 4096 mod 16); hex_digit (n / 256 mod 16);
   hex_digit (n / 16 mod 16); hex_digit (n mod 16)]%N.

Definition backslash_u (n : N) : str := 92%N :: 117%N :: fmt_04x n.

(** The replacement [encode_basestring_ascii] makes for one character:
    ESCAPE_DCT first, then [\uXXXX], a surrogate pair above the BMP;
    the characters from space to tilde other than the quote and the
    backslash stand for themselves. *)
Definition escape_char (c : N) : str :=
  (if c =? 92 then [92; 92]
   else if c =? 34 then [92; 34]
   else if c =? 8 then [92; 98]
   else if c =? 12 then [92; 102]
   else if c =? 10 then [92; 110]
   else if c =? 13 then [92; 114]
   else if c =? 9 then [92; 116]
   else if (32 <=? c) && (c <=? 126) then [c]
   else if c <? 0x10000 then backslash_u c
   else
     let n := c - 0x10000 in
     let s1 := N.lor 0xd800 (N.land (N.shiftr n 10) 0x3ff) in
     let s2 := N.lor 0xdc00 (N.land n 0x3ff) in
     backslash_u s1 ++ backslash_u s2)%N.

Definition escape_body (s : str) : str := flat_map escape_char s.

Definition encode_basestring_ascii (s : str) : str :=
  [Char.quote] ++ escape_body s ++ [Char.quote].

(** [sep.join(parts)]. *)
Fixpoint join (sep : str) (parts : list str) : str :=
  match parts with
  | [] => []
  | x :: rest =>
      match rest with
      | [] => x
      | _ :: _ => x ++ sep ++ join sep rest
      end
  end.

Definition item_separator : str := lit ", ".
Definition key_separator : str := lit ": ".

Fixpoint dumps (v : pyvalue) : str :=
  match v with
  | PyNone => lit "null"
  | PyBool b => if b then lit "true" else lit "false"
  | PyInt z => str_int z
  | PyStr s => encode_basestring_ascii s
  | PyList l =>
      [Char.lbracket] ++ join item_separator (map dumps l) ++ [Char.rbracket]
  | PyDict d =>
      [Char.lbrace] ++
      join item_separator
        (map (fun kv => encode_basestring_ascii (fst kv) ++ key_separator ++
                        dumps (snd kv)) d) ++
      [Char.rbrace]
  end.

(** The first exception in a list of results, in order. *)
Fixpoint first_error (results : list (option exn)) : option exn :=
  match results with
  | [] => None
  | Some e :: _ => Some e
  | None :: rest => first_error rest
  end.

(** The exception the encoder raises on [v] with [depth] nested calls
    left, if any.  It walks the value in the order it writes it: an int
    with too many digits is refused by int.__repr__ (ValueError); entering
    a list or a dict, empty or not, takes one nested call
    (RecursionError when none is left). *)
Fixpoint dumps_error_at (I : interpreter) (depth : nat) (v : pyvalue) {struct v}
  : option exn :=
  match v with
  | PyNone | PyBool _ | PyStr _ => None
  | PyInt z =>
      if exceeds_digits I (length (str_N (Z.abs_N z))) then Some ValueError_digits
      else None
  | PyList l =>
      match depth with
      | O => Some RecursionError
      | S d => first_error (map (dumps_error_at I d) l)
      end
  | PyDict kvs =>
      match depth with
      | O => Some RecursionError
      | S d => first_error (map (fun kv => dumps_error_at I d (snd kv)) kvs)
      end
  end.

(** The exception [json.dumps(v)] raises in interpreter [I], if any;
    otherwise it returns [dumps v]. *)
Definition dumps_error (I : interpreter) (v : pyvalue) : option exn :=
  dumps_error_at I (recursion_headroom I) v.

(** *** json.loads, default arguments ([strict=True]) *)

Definition is_ws (c : N) : bool :=
  ((c =? 32) || (c =? 9) || (c =? 10) || (c =? 13))%N.

Fixpoint skip_ws (s : str) : str :=
  match s with
  | c :: s' => if is_ws c then skip_ws s' else s
  | [] => []
  end.

Definition is_digit (c : N) : bool := ((48 <=? c) && (c <=? 57))%N.

Definition unhex (c : N) : option N :=
  (if (48 <=? c) && (c <=? 57) then Some (c - 48)
   else if (97 <=? c) && (c <=? 102) then Some (c - 87)
   else if (65 <=? c) && (c <=? 70) then Some (c - 55)
   else None)%N.

(** [_decode_uXXXX]: four hexadecimal digits. *)
Definition decode_uXXXX (h1 h2 h3 h4 : N) : option N :=
  match unhex h1, unhex h2, unhex h3, unhex h4 with
  | Some a, Some b, Some c, Some d => Some (((a * 16 + b) * 16 + c) * 16 + d)%N
  | _, _, _, _ => None
  end.

(** BACKSLASH: the one-character escapes. *)
Definition unescape (e : N) : option N :=
  (if e =? 34 then Some 34
   else if e =? 92 then Some 92
   else if e =? 47 then Some 47
   else if e =? 98 then Some 8
   else if e =? 102 then Some 12
   else if e =? 110 then Some 10
   else if e =? 114 then Some 13
   else if e =? 116 then Some 9
   else None)%N.

Definition is_high_surrogate (u : N) : bool := ((0xd800 <=? u) && (u <=? 0xdbff))%N.
Definition is_low_surrogate (u : N) : bool := ((0xdc00 <=? u) && (u <=? 0xdfff))%N.

Definition push {A} (c : N) (r : option (str * A)) : option (str * A) :=
  match r with
  | Some (cs, rest) => Some (c :: cs, rest)
  | None => None
  end.

(** [scanstring], entered after the opening quote: the decoded string and
    the input after the closing quote. *)
Fixpoint scanstring (s : str) : option (str * str) :=
  match s with
  | [] => None
  | c :: s1 =>
      if (c =? 34)%N then Some ([], s1)
      else if (c =? 92)%N then
        match s1 with
        | [] => None
        | e :: s2 =>
            if (e =? 117)%N then
              match s2 with
              | h1 :: h2 :: h3 :: h4 :: s3 =>
                  match decode_uXXXX h1 h2 h3 h4 with
                  | None => None
                  | Some uni =>
                      if is_high_surrogate uni then
                        match s3 with
                        | b :: u :: s4 =>
                            if ((b =? 92) && (u =? 117))%N then
                              match s4 with
                              | g1 :: g2 :: g3 :: g4 :: s5 =>
                                  match decode_uXXXX g1 g2 g3 g4 with
                                  | None => None
                                  | Some uni2 =>
                                      if is_low_surrogate uni2 then
                                        push (0x10000 +
                                              N.lor (N.shiftl (uni - 0xd800) 10)
                                                    (uni2 - 0xdc00))%N
                                             (scanstring s5)
                                      else push uni (scanstring s3)
                                  end
                              | _ => None
                              end
                            else push uni (scanstring s3)
                        | _ => push uni (scanstring s3)
                        end
                      else push uni (scanstring s3)
                  end
              | _ => None
              end
            else
              match unescape e with
              | Some c' => push c' (scanstring s2)
              | None => None
              end
        end
      else if (c <? 32)%N then None
      else push c (scanstring s1)
  end.

(** The digits matched by [\d*], accumulated onto [acc]. *)
Fixpoint scan_digits (acc : N) (s : str) : N * str :=
  match s with
  | c :: s' => if is_digit c then scan_digits (10 * acc + (c - 48))%N s' else (acc, s)
  | [] => (acc, [])
  end.

(** [0|[1-9]\d*]. *)
Definition scan_natural (s : str) : option (N * str) :=
  match s with
  | c :: s' =>
      if (c =? 48)%N then Some (0%N, s')
      else if is_digit c then Some (scan_digits (c - 48)%N s')
      else None
  | [] => None
  end.

(** Does a fraction [\.\d+] or an exponent [[eE][-+]?\d+] follow? *)
Definition float_follows (s : str) : bool :=
  match s with
  | c :: d :: s' =>
      if (c =? 46)%N then is_digit d
      else if ((c =? 101) || (c =? 69))%N then
        if ((d =? 43) || (d =? 45))%N then
          match s' with
          | d' :: _ => is_digit d'
          | [] => false
          end
        else is_digit d
      else false
  | _ => false
  end.

(** NUMBER_RE at the head of [s].  A number with a fraction or an exponent
    is a float: no value of this model, so no result.  An integer literal
    with too many digits is refused by int() (ValueError): no result. *)
Definition scan_number (I : interpreter) (s : str) : option (pyvalue * str) :=
  let '(neg, s0) :=
    match s with
    | c :: s' => if (c =? 45)%N then (true, s') else (false, s)
    | [] => (false, s)
    end in
  match scan_natural s0 with
  | Some (n, rest) =>
      if float_follows rest then None
      else if exceeds_digits I (length s0 - length rest) then None
      else Some (PyInt (if neg then - Z.of_N n else Z.of_N n), rest)
  | None => None
  end.

Fixpoint starts_with (p s : str) : option str :=
  match p, s with
  | [], _ => Some s
  | a :: p', b :: s' => if (a =? b)%N then starts_with p' s' else None
  | _ :: _, [] => None
  end.

(** [scan_once], [JSONArray] and [JSONObject].  [fuel] bounds the number
    of scanner calls; [loads] supplies more than any input needs.  [depth]
    is the number of nested calls left: entering an object or an array,
    empty or not, takes one (RecursionError, no result, when none is
    left). *)
Fixpoint scan_once (I : interpreter) (fuel depth : nat) (s : str)
  : option (pyvalue * str) :=
  match fuel with
  | O => None
  | S f =>
      match s with
      | [] => None
      | c :: s1 =>
          if (c =? 34)%N then
            match scanstring s1 with
            | Some (x, rest) => Some (PyStr x, rest)
            | None => None
            end
          else if (c =? 123)%N then
            match depth with
            | O => None
            | S d =>
                match skip_ws s1 with
                | c' :: s2 =>
                    if (c' =? 125)%N then Some (PyDict [], s2)
                    else
                      match scan_members I f d (c' :: s2) with
                      | Some (pairs, rest) =>
                          Some (PyDict (dict_of_pairs pairs), rest)
                      | None => None
                      end
                | [] => None
                end
            end
          else if (c =? 91)%N then
            match depth with
            | O => None
            | S d =>
                match skip_ws s1 with
                | c' :: s2 =>
                    if (c' =? 93)%N then Some (PyList [], s2)
                    else
                      match scan_items I f d (c' :: s2) with
                      | Some (vs, rest) => Some (PyList vs, rest)
                      | None => None
                      end
                | [] => None
                end
            end
          else if (c =? 110)%N then
            match starts_with (lit "null") s with
            | Some rest => Some (PyNone, rest)
            | None => None
            end
          else if (c =? 116)%N then
            match starts_with (lit "true") s with
            | Some rest => Some (PyBool true, rest)
            | None => None
            end
          else if (c =? 102)%N then
            match starts_with (lit "false") s with
            | Some rest => Some (PyBool false, rest)
            | None => None
            end
          else scan_number I s
      end
  end

(** The loop of [JSONArray], at the start of a value. *)
with scan_items (I : interpreter) (fuel depth : nat) (s : str)
  : option (list pyvalue * str) :=
  match fuel with
  | O => None
  | S f =>
      match scan_once I f depth s with
      | None => None
      | Some (v, s1) =>
          match skip_ws s1 with
          | c :: s2 =>
              if (c =? 93)%N then Some ([v], s2)
              else if (c =? 44)%N then
                match scan_items I f depth (skip_ws s2) with
                | Some (vs, rest) => Some (v :: vs, rest)
                | None => None
                end
              else None
          | [] => None
          end
      end
  end

(** The loop of [JSONObject], at the quote that opens a key. *)
with scan_members (I : interpreter) (fuel depth : nat) (s : str)
  : option (list (str * pyvalue) * str) :=
  match fuel with
  | O => None
  | S f =>
      match s with
      | q :: s0 =>
          if (q =? 34)%N then
            match scanstring s0 with
            | None => None
            | Some (k, s1) =>
                match skip_ws s1 with
                | c :: s2 =>
                    if (c =? 58)%N then
                      match scan_once I f depth (skip_ws s2) with
                      | None => None
                      | Some (v, s3) =>
                          match skip_ws s3 with
                          | c' :: s4 =>
                              if (c' =? 125)%N then Some ([(k, v)], s4)
                              else if (c' =? 44)%N then
                                match scan_members I f depth (skip_ws s4) with
                                | Some (kvs, rest) => Some ((k, v) :: kvs, rest)
                                | None => None
                                end
                              else None
                          | [] => None
                          end
                      end
                    else None
                | [] => None
                end
            end
          else None
      | [] => None
      end
  end.

(** [json.loads(s)] in interpreter [I]: one value between optional
    whitespace, nothing after it.  [None] stands for an exception
    (JSONDecodeError, ValueError, RecursionError) or for a float. *)
Definition loads (I : interpreter) (s : str) : option pyvalue :=
  match scan_once I (S (length s)) (recursion_headroom I) (skip_ws s) with
  | Some (v, rest) =>
      match skip_ws rest with
      | [] => Some v
      | _ :: _ => None
      end
  | None => None
  end.

End Json.

(* ===================================================================== *)
(** ** Library calls, call trees and environments *)
(* ===================================================================== *)

(** Objects of the client libraries, known only by identity. *)
Inductive credentials_manager := CredentialsManager (id : N).
Inductive spotify_client := SpotifyClient (id : N).
Inductive s3_client := S3Client (id : N).

(** The library calls of the source, indexed by the type of their result. *)
Inductive call : Type -> Type :=
| environ_get (name : str) : call (option str)
| SpotifyClientCredentials (client_id client_secret : option str) :
    call credentials_manager
| Spotify (client_credentials_manager : credentials_manager) : call spotify_client
| user_playlists (sp : spotify_client) (user : str) : call pyvalue
| playlist_tracks (sp : spotify_client) (playlist_id : str) : call pyvalue
| boto3_client (service : str) : call s3_client
| datetime_now : call datetime
| put_object (client : s3_client) (Bucket Key Body : str) : call pyvalue.

(** A piece of Python code as the tree of the library calls it makes;
    [JsonDumps] is [json.dumps], computed in the interpreter itself.
    There is no node for try/except: the source has none. *)
Inductive prog (A : Type) : Type :=
| Return (a : A)
| Raise (e : exn)
| Call {X : Type} (c : call X) (k : X -> prog A)
| JsonDumps (obj : pyvalue) (k : str -> prog A).
Arguments Return {A} a.
Arguments Raise {A} e.
Arguments Call {A X} c k.
Arguments JsonDumps {A} obj k.

Fixpoint bind {A B} (p : prog A) (f : A -> prog B) : prog B :=
  match p with
  | Return a => f a
  | Raise e => Raise e
  | Call c k => Call c (fun x => bind (k x) f)
  | JsonDumps v k => JsonDumps v (fun x => bind (k x) f)
  end.

#[export] Instance prog_ret : MRet prog := fun A a => Return a.
#[export] Instance prog_bind : MBind prog := fun A B f p => bind p f.

Definition perform {X} (c : call X) : prog X := Call c Return.

(** [json.dumps(obj)] as a statement. *)
Definition json_dumps (obj : pyvalue) : prog str := JsonDumps obj Return.

Definition IndexError : exn := mk_exn "IndexError" "list index out of range".

(** [l[i]] as a statement: the element, or IndexError. *)
Definition subscript {A} (l : list A) (i : Z) : prog A :=
  match py_index l i with
  | Some x => Return x
  | None => Raise IndexError
  end.

(** How a call, or a whole invocation, ends. *)
Inductive outcome (A : Type) : Type :=
| Returned (a : A)
| Raised (e : exn).
Arguments Returned {A} a.
Arguments Raised {A} e.

(** The outside world: in state [w] it answers a call with a value or an
    exception and moves to a new state; [limits] are the limits of the
    interpreter the code runs in. *)
Record environment (W : Type) : Type := mk_environment {
  respond : forall X, call X -> W -> outcome X * W;
  limits : interpreter
}.
Arguments respond {W} _ {X} _ _.
Arguments limits {W} _.

(** One call and how it ended. *)
Inductive trace_entry : Type :=
| Event {X : Type} (c : call X) (r : outcome X).

(** Running a call tree: calls are made in order; an exception raised by a
    call, or by [json.dumps], ends the run with that exception.  The
    result, the final state of the world and the trace of the calls the
    outside world answered. *)
Fixpoint run {W A} (E : environment W) (p : prog A) (w : W)
  : outcome A * W * list trace_entry :=
  match p with
  | Return a => (Returned a, w, [])
  | Raise e => (Raised e, w, [])
  | Call c k =>
      match respond E c w with
      | (Returned x, w') =>
          let '(r, w'', tr) := run E (k x) w' in
          (r, w'', Event c (Returned x) :: tr)
      | (Raised e, w') => (Raised e, w', [Event c (Raised e)])
      end
  | JsonDumps v k =>
      match Json.dumps_error (limits E) v with
      | Some e => (Raised e, w, [])
      | None => run E (k (Json.dumps v)) w
      end
  end.

(* ===================================================================== *)
(** ** lambda_handler *)
(* ===================================================================== *)

Definition playlist_link : str :=
  lit "https://open.spotify.com/playlist/3OK8UdRoB6IfDEa1pNJTQE".

Definition lambda_handler (event context : pyvalue) : prog pyvalue :=
  client_id ← perform (environ_get (lit "client_id"));
  client_secret ← perform (environ_get (lit "client_secret"));
  client_credentials_manager ←
    perform (SpotifyClientCredentials client_id client_secret);
  sp ← perform (Spotify client_credentials_manager);
  playlists ← perform (user_playlists sp (lit "spotify"));
  playlist_url ← subscript (split Char.slash playlist_link) (-1);
  spotify_data ← perform (playlist_tracks sp playlist_url);
  client ← perform (boto3_client (lit "s3"));
  now ← perform datetime_now;
  let filename := (lit "spotify_raw_" ++ str_datetime now) ++ lit ".json" in
  body ← json_dumps spotify_data;
  _ ← perform (put_object client
                 (lit "spotifyv")
                 (lit "raw-data/to_processed/" ++ filename)
                 body);
  mret PyNone.

(** The handler without the [sp.user_playlists('spotify')] line: the
    simplification the specification recommends, to compare with
    [lambda_handler]. *)
Definition lambda_handler_without_user_playlists (event context : pyvalue)
  : prog pyvalue :=
  client_id ← perform (environ_get (lit "client_id"));
  client_secret ← perform (environ_get (lit "client_secret"));
  client_credentials_manager ←
    perform (SpotifyClientCredentials client_id client_secret);
  sp ← perform (Spotify client_credentials_manager);
  playlist_url ← subscript (split Char.slash playlist_link) (-1);
  spotify_data ← perform (playlist_tracks sp playlist_url);
  client ← perform (boto3_client (lit "s3"));
  now ← perform datetime_now;
  let filename := (lit "spotify_raw_" ++ str_datetime now) ++ lit ".json" in
  body ← json_dumps spotify_data;
  _ ← perform (put_object client
                 (lit "spotifyv")
                 (lit "raw-data/to_processed/" ++ filename)
                 body);
  mret PyNone.

(* ===================================================================== *)
(** ** What a trace shows *)
(* ===================================================================== *)

(** The arguments of a [put_object] call. *)
Record s3_write := mk_write { wr_bucket : str; wr_key : str; wr_body : str }.

Definition put_call (ev : trace_entry) : option s3_write :=
  match ev with
  | Event c _ =>
      match c with
      | put_object _ b k body => Some (mk_write b k body)
      | _ => None
      end
  end.

(** A [put_object] call that returned: an object now stored. *)
Definition put_done (ev : trace_entry) : option s3_write :=
  match ev with
  | Event c (Returned _) =>
      match c with
      | put_object _ b k body => Some (mk_write b k body)
      | _ => None
      end
  | Event _ (Raised _) => None
  end.

Definition put_failure (ev : trace_entry) : option exn :=
  match ev with
  | Event c (Raised e) =>
      match c with
      | put_object _ _ _ _ => Some e
      | _ => None
      end
  | Event _ (Returned _) => None
  end.

Definition clock_reading (ev : trace_entry) : option datetime :=
  match ev with
  | Event c r =>
      match c in call X return outcome X -> option datetime with
      | datetime_now => fun r => match r with Returned t => Some t | Raised _ => None end
      | _ => fun _ => None
      end r
  end.

Definition tracks_request (ev : trace_entry) : option str :=
  match ev with
  | Event c _ =>
      match c with
      | playlist_tracks _ id => Some id
      | _ => None
      end
  end.

Definition tracks_response (ev : trace_entry) : option pyvalue :=
  match ev with
  | Event c r =>
      match c in call X return outcome X -> option pyvalue with
      | playlist_tracks _ _ =>
          fun r => match r with Returned v => Some v | Raised _ => None end
      | _ => fun _ => None
      end r
  end.

Definition failure (ev : trace_entry) : option exn :=
  match ev with
  | Event _ (Raised e) => Some e
  | Event _ (Returned _) => None
  end.

(** A call into the spotipy client that raised.  The library makes the
    client-credentials exchange inside these calls: the manager raises at
    once when a credential is missing, and otherwise the token is asked for
    when a request needs one, so that a refused exchange surfaces in
    [sp.user_playlists], the first request. *)
Definition spotify_failure (ev : trace_entry) : option exn :=
  match ev with
  | Event c (Raised e) =>
      match c with
      | SpotifyClientCredentials _ _ => Some e
      | Spotify _ => Some e
      | user_playlists _ _ => Some e
      | playlist_tracks _ _ => Some e
      | _ => None
      end
  | Event _ (Returned _) => None
  end.

(** The library call behind an event, without its result. *)
Inductive op : Type :=
| OpEnvironGet (name : str)
| OpSpotifyClientCredentials (client_id client_secret : option str)
| OpSpotify (m : credentials_manager)
| OpUserPlaylists (sp : spotify_client) (user : str)
| OpPlaylistTracks (sp : spotify_client) (playlist_id : str)
| OpBoto3Client (service : str)
| OpDatetimeNow
| OpPutObject (client : s3_client) (Bucket Key Body : str).

Definition op_of_call {X} (c : call X) : op :=
  match c with
  | environ_get n => OpEnvironGet n
  | SpotifyClientCredentials a b => OpSpotifyClientCredentials a b
  | Spotify m => OpSpotify m
  | user_playlists sp u => OpUserPlaylists sp u
  | playlist_tracks sp i => OpPlaylistTracks sp i
  | boto3_client s => OpBoto3Client s
  | datetime_now => OpDatetimeNow
  | put_object cl b k body => OpPutObject cl b k body
  end.

Definition op_of (ev : trace_entry) : op :=
  match ev with Event c _ => op_of_call c end.

(** The outbound operations of the specification.  [TokenExchange] labels
    the construction of the client-credentials manager, the one call that
    is handed the two credentials (spotipy sends the token request itself
    later, ahead of the first request that needs it); reading os.environ,
    building the client objects and reading the clock stay on the
    machine. *)
Inductive outbound : Type :=
| TokenExchange
| ListPlaylists (user : str)
| GetPlaylistTracks (playlist_id : str)
| StorageWrite.

Definition outbound_of (ev : trace_entry) : option outbound :=
  match op_of ev with
  | OpSpotifyClientCredentials _ _ => Some TokenExchange
  | OpUserPlaylists _ u => Some (ListPlaylists u)
  | OpPlaylistTracks _ i => Some (GetPlaylistTracks i)
  | OpPutObject _ _ _ _ => Some StorageWrite
  | _ => None
  end.

Definition put_calls (tr : list trace_entry) : list s3_write := omap put_call tr.
Definition stored_objects (tr : list trace_entry) : list s3_write := omap put_done tr.
Definition clock_readings (tr : list trace_entry) : list datetime := omap clock_reading tr.
Definition tracks_requests (tr : list trace_entry) : list str := omap tracks_request tr.
Definition tracks_responses (tr : list trace_entry) : list pyvalue := omap tracks_response tr.
Definition failures (tr : list trace_entry) : list exn := omap failure tr.
Definition outbound_calls (tr : list trace_entry) : list outbound := omap outbound_of tr.

(** One invocation of the handler in world [w]. *)
Definition invoke {W} (E : environment W) (event context : pyvalue) (w : W)
  : outcome pyvalue * W * list trace_entry :=
  run E (lambda_handler event context) w.

(** [json.dumps] was reached in a run with trace [tr] and raised [e]: the
    clock, read just before, has answered, and the interpreter refuses to
    serialize the playlist-tracks response. *)
Definition serialization_failure {W} (E : environment W)
    (tr : list trace_entry) (e : exn) : Prop :=
  exists now data,
    clock_readings tr = [now] /\
    tracks_responses tr = [data] /\
    Json.dumps_error (limits E) data = Some e.

Definition result_of {A W} (r : outcome A * W * list trace_entry) : outcome A := r.1.1.
Definition world_of {A W} (r : outcome A * W * list trace_entry) : W := r.1.2.
Definition trace_of {A W} (r : outcome A * W * list trace_entry) : list trace_entry := r.2.

(* ===================================================================== *)
(** ** A test double for the outside world *)
(* ===================================================================== *)

Module Mock.

(** What the double knows: the process environment, the credentials the
    API accepts, what the two endpoints answer to an authorized client, the
    buckets that exist with their objects, and a clock read by counting
    ticks. *)
Record world := mk_world {
  environ : list (str * str);
  accepted : str * str;
  playlists : outcome pyvalue;
  tracks : outcome pyvalue;
  buckets : list str;
  objects : gmap (str * str) str;
  clock : nat -> datetime;
  ticks : nat
}.

Definition SpotifyOauthError : exn :=
  mk_exn "SpotifyOauthError" "invalid_client".
Definition NoCredentials : exn :=
  mk_exn "SpotifyOauthError" "No client_secret".
Definition SpotifyException : exn :=
  mk_exn "SpotifyException" "http status: 404".
Definition NoSuchBucket : exn :=
  mk_exn "ClientError" "NoSuchBucket".

Fixpoint getenv (name : str) (env : list (str * str)) : option str :=
  match env with
  | [] => None
  | (k, v) :: env' => if decide (k = name) then Some v else getenv name env'
  end.

Definition tick (w : world) : world :=
  mk_world (environ w) (accepted w) (playlists w) (tracks w) (buckets w)
           (objects w) (clock w) (S (ticks w)).

Definition store (b k body : str) (w : world) : world :=
  mk_world (environ w) (accepted w) (playlists w) (tracks w) (buckets w)
           (<[(b, k) := body]> (objects w)) (clock w) (ticks w).

(** The credentials of the process are the ones the API accepts. *)
Definition authorized (w : world) : bool :=
  bool_decide
    ((getenv (lit "client_id") (environ w), getenv (lit "client_secret") (environ w))
     = (Some (accepted w).1, Some (accepted w).2)).

(** As spotipy does, the manager raises only when a credential is missing;
    credentials the API does not accept are refused when a request asks for
    the token. *)
Definition answer (X : Type) (c : call X) (w : world) : outcome X * world :=
  match c in call X return outcome X * world with
  | environ_get name => (Returned (getenv name (environ w)), w)
  | SpotifyClientCredentials cid sec =>
      match cid, sec with
      | Some _, Some _ => (Returned (CredentialsManager 1), w)
      | _, _ => (Raised NoCredentials, w)
      end
  | Spotify _ => (Returned (SpotifyClient 1), w)
  | user_playlists _ _ =>
      if authorized w then (playlists w, w) else (Raised SpotifyOauthError, w)
  | playlist_tracks _ _ =>
      if authorized w then (tracks w, w) else (Raised SpotifyOauthError, w)
  | boto3_client _ => (Returned (S3Client 1), w)
  | datetime_now => (Returned (clock w (ticks w)), tick w)
  | put_object _ b k body =>
      if decide (b ∈ buckets w)
      then (Returned (PyDict []), store b k body w)
      else (Raised NoSuchBucket, w)
  end.

(** A CPython with its default limits and some headroom on the stack. *)
Definition cpython : interpreter := mk_interpreter 4300 950.

Definition env : environment world := mk_environment world answer cpython.

(** The same double with a list-playlists endpoint that always answers. *)
Definition steady_answer (X : Type) (c : call X) (w : world) : outcome X * world :=
  match c in call X return outcome X * world with
  | user_playlists _ _ => (Returned (PyDict []), w)
  | c' => answer _ c' w
  end.

Definition steady_env : environment world :=
  mk_environment world steady_answer cpython.

(** The mocked track list of the specification's example. *)
Definition song_a : pyvalue :=
  PyDict [(lit "items",
           PyList [PyDict [(lit "track",
                            PyDict [(lit "name", PyStr (lit "Song A"))])]])].

(** A clock that advances by one second at each reading. *)
Definition running_clock (n : nat) : datetime :=
  mk_datetime 2024 5 17 8 30 (N.of_nat n) 250000.

(** A clock that stands still, at midnight sharp. *)
Definition frozen_clock (n : nat) : datetime :=
  mk_datetime 2024 1 1 0 0 0 0.

(** Credentials abc/xyz, both endpoints up, the bucket in place. *)
Definition good : world :=
  mk_world [(lit "client_id", lit "abc"); (lit "client_secret", lit "xyz")]
           (lit "abc", lit "xyz")
           (Returned (PyDict []))
           (Returned song_a)
           [lit "spotifyv"]
           ∅
           running_clock
           0.

Definition with_clock (f : nat -> datetime) (w : world) : world :=
  mk_world (environ w) (accepted w) (playlists w) (tracks w) (buckets w)
           (objects w) f (ticks w).

(** The secret is missing from the process environment. *)
Definition no_secret : world :=
  mk_world [(lit "client_id", lit "abc")]
           (accepted good) (playlists good) (tracks good) (buckets good)
           (objects good) (clock good) (ticks good).

(** The secret of the process is not the one the API accepts. *)
Definition wrong_secret : world :=
  mk_world [(lit "client_id", lit "abc"); (lit "client_secret", lit "oops")]
           (accepted good) (playlists good) (tracks good) (buckets good)
           (objects good) (clock good) (ticks good).

(** The list-playlists endpoint is down. *)
Definition playlists_down : world :=
  mk_world (environ good) (accepted good) (Raised SpotifyException)
           (tracks good) (buckets good) (objects good) (clock good)
           (ticks good).

(** The bucket does not exist. *)
Definition no_bucket : world :=
  mk_world (environ good) (accepted good) (playlists good) (tracks good)
           [] (objects good) (clock good) (ticks good).

Definition frozen : world := with_clock frozen_clock good.

Definition with_tracks (v : pyvalue) (w : world) : world :=
  mk_world (environ w) (accepted w) (playlists w) (Returned v) (buckets w)
           (objects w) (clock w) (ticks w).

(** A track list whose total has 4301 digits. *)
Definition huge_total : pyvalue :=
  PyDict [(lit "total", PyInt (10 ^ 4300))].

(** [n] lists inside one another, around an empty one. *)
Fixpoint nested (n : nat) : pyvalue :=
  match n with
  | O => PyList []
  | S k => PyList [nested k]
  end.



End Mock.

(* ===================================================================== *)
(** ** Notions used in the statements and their proofs *)
(* ===================================================================== *)

Definition date_part (t : datetime) : str :=
  fixed 4 (year t) ++ [Char.minus] ++ fixed 2 (month t) ++ [Char.minus] ++
  fixed 2 (day t).

Definition time_part (t : datetime) : str :=
  fixed 2 (hour t) ++ [Char.colon] ++ fixed 2 (minute t) ++ [Char.colon] ++
  fixed 2 (second t).

Definition fraction_part (t : datetime) : str :=
  [Char.dot] ++ fixed 6 (microsecond t).

Definition seconds_form (t : datetime) : str :=
  date_part t ++ [Char.space] ++ time_part t.

Definition microseconds_form (t : datetime) : str :=
  date_part t ++ [Char.space] ++ time_part t ++ fraction_part t.

(** What may follow a value in the output of [dumps]: nothing, a comma, or a
    closing bracket or brace. *)
Definition value_end (rest : str) : Prop :=
  match rest with
  | [] => True
  | c :: _ => c = Char.comma \/ c = Char.rbracket \/ c = Char.rbrace
  end.

(** No high surrogate is directly followed by a low surrogate. *)
Fixpoint no_surrogate_pair (s : str) : bool :=
  match s with
  | c :: s' =>
      match s' with
      | c' :: _ => negb (Json.is_high_surrogate c && Json.is_low_surrogate c')
      | [] => true
      end && no_surrogate_pair s'
  | [] => true
  end.

(** A string the JSON decoder can deliver: code points of Unicode, with no
    surrogate pair left unjoined. *)
Definition str_ok (s : str) : bool :=
  forallb (fun c => c <? 0x110000)%N s && no_surrogate_pair s.

(** The two halves of the surrogate pair of a code point above the BMP. *)
Definition high_half (c : N) : N :=
  N.lor 0xd800%N (N.land (N.shiftr (c - 0x10000)%N 10) 0x3ff%N).
Definition low_half (c : N) : N :=
  N.lor 0xdc00%N (N.land (c - 0x10000)%N 0x3ff).

Section JsonAux.
Import Json.
Local Open Scope N_scope.
(** The shapes [escape_char] produces. *)
Inductive escape_shape (c : N) : str -> Prop :=
| shape_plain :
    32 <= c -> c <> 34 -> c <> 92 -> escape_shape c [c]
| shape_short (e : N) :
    unescape e = Some c -> e <> 117 -> escape_shape c [92; e]
| shape_u :
    c < 0x10000 -> escape_shape c (backslash_u c)
| shape_pair :
    0x10000 <= c -> escape_shape c (backslash_u (high_half c) ++ backslash_u (low_half c)).

(** What the decoder sees after a high surrogate: no [\u] escape of a low
    surrogate. *)
Definition no_low_escape (tl : str) : Prop :=
  match tl with
  | b :: u :: s4 =>
      (b =? 92) && (u =? 117) = true ->
      exists g1 g2 g3 g4 s5 u2,
        s4 = g1 :: g2 :: g3 :: g4 :: s5 /\
        decode_uXXXX g1 g2 g3 g4 = Some u2 /\ is_low_surrogate u2 = false
  | _ => True
  end.
End JsonAux.

(** A value the JSON decoder can deliver: its strings are [str_ok] and the
    keys of each dict are distinct. *)
Fixpoint well_formed (v : pyvalue) : bool :=
  match v with
  | PyNone | PyBool _ | PyInt _ => true
  | PyStr s => str_ok s
  | PyList l => forallb well_formed l
  | PyDict d =>
      bool_decide (NoDup (map fst d)) &&
      forallb (fun kv => str_ok (fst kv) && well_formed (snd kv)) d
  end.

(** A bound on the scanner calls needed to read a value back. *)
Fixpoint size (v : pyvalue) : nat :=
  match v with
  | PyNone | PyBool _ | PyInt _ | PyStr _ => 1
  | PyList l => S (list_sum (map (fun x => S (size x)) l))
  | PyDict d => S (list_sum (map (fun kv => S (size (snd kv))) d))
  end.

Section PyvalueInd.
Variable P : pyvalue -> Prop.
Hypothesis HNone : P PyNone.
Hypothesis HBool : forall b, P (PyBool b).
Hypothesis HInt : forall z, P (PyInt z).
Hypothesis HStr : forall s, P (PyStr s).
Hypothesis HList : forall l, Forall P l -> P (PyList l).
Hypothesis HDict : forall d, Forall (fun kv => P (snd kv)) d -> P (PyDict d).

Fixpoint pyvalue_ind (v : pyvalue) : P v :=
  match v with
  | PyNone => HNone
  | PyBool b => HBool b
  | PyInt z => HInt z
  | PyStr s => HStr s
  | PyList l =>
      HList l ((fix go (l : list pyvalue) : Forall P l :=
                  match l with
                  | [] => @List.Forall_nil _ _
                  | x :: l' => @List.Forall_cons _ _ x l' (pyvalue_ind x) (go l')
                  end) l)
  | PyDict d =>
      HDict d ((fix go (d : list (str * pyvalue)) : Forall (fun kv => P (snd kv)) d :=
                  match d with
                  | [] => @List.Forall_nil _ _
                  | kv :: d' => @List.Forall_cons _ _ kv d' (pyvalue_ind (snd kv)) (go d')
                  end) d)
  end.
End PyvalueInd.

Section JsonAux.
Import Json.
Local Open Scope N_scope.
(** A character a value can start with. *)
Definition value_start (c : N) : Prop :=
  is_ws c = false /\ c <> Char.rbracket /\ c <> Char.rbrace.

(** The statement proved for each value by induction. *)
Definition reads_back (I : interpreter) (v : pyvalue) : Prop :=
  well_formed v = true ->
  forall (fuel depth : nat) (rest : str),
    (size v <= fuel)%nat -> dumps_error_at I depth v = None -> value_end rest ->
    scan_once I fuel depth (dumps v ++ rest) = Some (v, rest).

(** How deep the lists and dicts of a value are nested. *)
Fixpoint nesting (v : pyvalue) : nat :=
  match v with
  | PyNone | PyBool _ | PyInt _ | PyStr _ => 0
  | PyList l => S (list_max (map nesting l))
  | PyDict d => S (list_max (map (fun kv => nesting (snd kv)) d))
  end.

Definition dumps_member (kv : str * pyvalue) : str :=
  encode_basestring_ascii (fst kv) ++ key_separator ++ dumps (snd kv).
End JsonAux.

(** The constants of the handler. *)
Definition playlist_id : str := lit "3OK8UdRoB6IfDEa1pNJTQE".
Definition bucket : str := lit "spotifyv".
Definition key_prefix : str := lit "raw-data/to_processed/spotify_raw_".
Definition key_suffix : str := lit ".json".

(** The key the handler builds from a clock reading. *)
Definition object_key (now : datetime) : str :=
  key_prefix ++ str_datetime now ++ key_suffix.

(** Two invocations, the second in the world the first one left. *)
Definition back_to_back {W} (E : environment W)
    (event1 context1 event2 context2 : pyvalue) (w : W)
  : list trace_entry * list trace_entry :=
  let r1 := invoke E event1 context1 w in
  let r2 := invoke E event2 context2 (world_of r1) in
  (trace_of r1, trace_of r2).

Definition keys (tr : list trace_entry) : list str := map wr_key (put_calls tr).

(** In environment [E] the list-playlists call always returns and leaves
    the world as it found it. *)
Definition user_playlists_inert {W} (E : environment W) : Prop :=
  forall sp user w, exists v, respond E (user_playlists sp user) w = (Returned v, w).

(* ===================================================================== *)
(** ** Further observations on traces and strings *)
(* ===================================================================== *)

(** An [os.environ.get] call that returned: the name asked for and the
    value, [None] when the variable is not set. *)
Definition environ_read (ev : trace_entry) : option (str * option str) :=
  match ev with
  | Event c r =>
      match c in call X return outcome X -> option (str * option str) with
      | environ_get name =>
          fun r => match r with Returned v => Some (name, v) | Raised _ => None end
      | _ => fun _ => None
      end r
  end.

(** The two arguments of a [SpotifyClientCredentials] call. *)
Definition credentials_request (ev : trace_entry) : option (option str * option str) :=
  match op_of ev with
  | OpSpotifyClientCredentials client_id client_secret => Some (client_id, client_secret)
  | _ => None
  end.

Definition user_playlists_failure (ev : trace_entry) : option exn :=
  match ev with
  | Event c (Raised e) =>
      match c with
      | user_playlists _ _ => Some e
      | _ => None
      end
  | Event _ (Returned _) => None
  end.

(** The library function behind a call. *)
Definition op_name (o : op) : string :=
  match o with
  | OpEnvironGet _ => "os.environ.get"
  | OpSpotifyClientCredentials _ _ => "SpotifyClientCredentials"
  | OpSpotify _ => "spotipy.Spotify"
  | OpUserPlaylists _ _ => "sp.user_playlists"
  | OpPlaylistTracks _ _ => "sp.playlist_tracks"
  | OpBoto3Client _ => "boto3.client"
  | OpDatetimeNow => "datetime.now"
  | OpPutObject _ _ _ _ => "client.put_object"
  end.

(** The library calls of the handler body, top to bottom. *)
Definition handler_calls : list string :=
  ["os.environ.get"; "os.environ.get"; "SpotifyClientCredentials";
   "spotipy.Spotify"; "sp.user_playlists"; "sp.playlist_tracks";
   "boto3.client"; "datetime.now"; "client.put_object"]%string.

Definition environ_reads (tr : list trace_entry) : list (str * option str) :=
  omap environ_read tr.
Definition credentials_requests (tr : list trace_entry)
  : list (option str * option str) := omap credentials_request tr.

(** How often [c] occurs in [s]: [s.count(c)]. *)
Fixpoint count (c : N) (s : str) : nat :=
  match s with
  | [] => 0
  | x :: s' => (if (x =? c)%N then 1 else 0) + count c s'
  end.

(** Printable ASCII, space to tilde. *)
Definition printable (c : N) : Prop := (32 <= c <= 126)%N.

(** The order of Python's [<] on strings: by code point, a proper prefix
    first. *)
Fixpoint str_lt (a b : str) : Prop :=
  match a, b with
  | _, [] => False
  | [], _ :: _ => True
  | x :: a', y :: b' => (x < y)%N \/ (x = y /\ str_lt a' b')
  end.

(** The order of [<] on datetimes: field by field, the year first. *)
Definition datetime_fields (t : datetime) : list N :=
  [year t; month t; day t; hour t; minute t; second t; microsecond t].

Fixpoint fields_lt (a b : list N) : Prop :=
  match a, b with
  | x :: a', y :: b' => (x < y)%N \/ (x = y /\ fields_lt a' b')
  | _, _ => False
  end.

Definition datetime_lt (t1 t2 : datetime) : Prop :=
  fields_lt (datetime_fields t1) (datetime_fields t2).

(** The two datetimes lie in the same second. *)
Definition same_second (t1 t2 : datetime) : Prop :=
  year t1 = year t2 /\ month t1 = month t2 /\ day t1 = day t2 /\
  hour t1 = hour t2 /\ minute t1 = minute t2 /\ second t1 = second t2.

(** [a] and [b] agree up to a position where [a] has the smaller
    character. *)
Definition differ_lt (a b : str) : Prop :=
  exists q x y r1 r2, a = q ++ x :: r1 /\ b = q ++ y :: r2 /\ (x < y)%N.

(* ===================================================================== *)
(** * Proofs *)
(* ===================================================================== *)

#[local] Ltac Zify.zify_post_hook ::= Z.to_euclidean_division_equations.

Section Decimal.
Local Open Scope N_scope.

Lemma div10_lt_pow2 (f : nat) (n : N) :
  n < 2 ^ N.of_nat (S f) -> n / 10 < 2 ^ N.of_nat f.
Proof.
  intros H. rewrite Nat2N.inj_succ, N.pow_succ_r' in H.
  apply N.Div0.div_lt_upper_bound. lia.
Qed.

Lemma div10_lt_pow10 (w : nat) (n : N) :
  n < 10 ^ N.of_nat (S w) -> n / 10 < 10 ^ N.of_nat w.
Proof.
  intros H. rewrite Nat2N.inj_succ, N.pow_succ_r' in H.
  apply N.Div0.div_lt_upper_bound. lia.
Qed.

Lemma str_N_fuel (n : N) : n < 2 ^ N.of_nat (S (N.to_nat (N.log2 n))).
Proof.
  destruct (N.eq_dec n 0) as [->|Hn]; [reflexivity|].
  rewrite Nat2N.inj_succ, N2Nat.id. apply N.log2_spec. lia.
Qed.

Lemma length_fixed (w : nat) (n : N) : length (fixed w n) = w.
Proof.
  revert n. induction w as [|w IH]; intros n; simpl; [done|].
  rewrite length_app, IH. simpl. lia.
Qed.

Lemma fixed_zero (w : nat) : fixed w 0 = repeat Char.zero w.
Proof.
  induction w as [|w IH]; [done|].
  cbn [fixed]. change (0 / 10) with 0. rewrite IH.
  change [digit (0 mod 10)] with (repeat Char.zero 1).
  rewrite <- repeat_app. f_equal. lia.
Qed.

Lemma digit_inj (a b : N) : digit a = digit b -> a = b.
Proof. unfold digit. lia. Qed.

Lemma fixed_inj (w : nat) (n m : N) :
  n < 10 ^ N.of_nat w -> m < 10 ^ N.of_nat w -> fixed w n = fixed w m -> n = m.
Proof.
  revert n m. induction w as [|w IH]; intros n m Hn Hm E.
  - simpl in Hn, Hm. lia.
  - simpl in E. apply app_inj_2 in E as [E1 E2]; [|done].
    injection E2 as E2. apply digit_inj in E2.
    apply IH in E1; try by apply div10_lt_pow10.
    rewrite (N.div_mod n 10), (N.div_mod m 10) by lia. congruence.
Qed.

(** Padding the digits of [n] with zeros gives the fixed-width digits. *)
Lemma pad_dec_rev (f w : nat) (n : N) :
  n < 2 ^ N.of_nat f -> n < 10 ^ N.of_nat w -> (0 < w)%nat ->
  repeat Char.zero (w - length (dec_rev f n)) ++ rev (dec_rev f n) = fixed w n.
Proof.
  revert w n. induction f as [|f IH]; intros w n Hf Hw Hpos.
  - simpl in Hf. assert (n = 0) as -> by lia. simpl.
    rewrite app_nil_r, Nat.sub_0_r. symmetry. apply fixed_zero.
  - destruct w as [|w]; [lia|]. simpl.
    destruct (N.eqb_spec (n / 10) 0) as [Hz|Hz].
    + simpl. rewrite Nat.sub_0_r, Hz, fixed_zero. done.
    + simpl. rewrite app_assoc. f_equal.
      apply IH.
      * by apply div10_lt_pow2.
      * by apply div10_lt_pow10.
      * destruct w; [|lia]. simpl in Hw.
        assert (n / 10 = 0); [|done]. apply N.div_small. lia.
Qed.

Lemma fmt_0d_fixed (w : nat) (n : N) :
  (0 < w)%nat -> n < 10 ^ N.of_nat w -> fmt_0d w n = fixed w n.
Proof.
  intros Hw Hn. unfold fmt_0d, str_N. rewrite length_rev.
  apply pad_dec_rev; [apply str_N_fuel|done..].
Qed.
End Decimal.

Arguments fixed : simpl never.

Section Datetime.
Local Open Scope N_scope.

Lemma days_in_month_le (y m : N) : days_in_month y m <= 31.
Proof. unfold days_in_month. repeat case_match; lia. Qed.

Lemma str_datetime_fixed (t : datetime) :
  valid_datetime t ->
  str_datetime t =
    if microsecond t =? 0 then seconds_form t else microseconds_form t.
Proof.
  intros (Hy & Hm & Hd & Hh & Hmi & Hs & Hus).
  pose proof (days_in_month_le (year t) (month t)).
  unfold str_datetime, isoformat, format_time, seconds_form,
    microseconds_form, date_part, time_part, fraction_part.
  rewrite !fmt_0d_fixed by (simpl; lia).
  destruct (microsecond t =? 0); by rewrite <- ?app_assoc, ?app_nil_r.
Qed.

Lemma length_seconds_form t : length (seconds_form t) = 19%nat.
Proof.
  unfold seconds_form, date_part, time_part.
  rewrite !length_app, !length_fixed. reflexivity.
Qed.

Lemma length_microseconds_form t : length (microseconds_form t) = 26%nat.
Proof.
  unfold microseconds_form, date_part, time_part, fraction_part.
  rewrite !length_app, !length_fixed. reflexivity.
Qed.

Lemma fixed_app_inj (w : nat) (n m : N) (r1 r2 : str) :
  n < 10 ^ N.of_nat w -> m < 10 ^ N.of_nat w ->
  fixed w n ++ r1 = fixed w m ++ r2 -> n = m /\ r1 = r2.
Proof.
  intros Hn Hm E. apply app_inj_1 in E as [E1 E2].
  - split; [by eapply fixed_inj|done].
  - by rewrite !length_fixed.
Qed.

Lemma str_datetime_inj (t1 t2 : datetime) :
  valid_datetime t1 -> valid_datetime t2 ->
  str_datetime t1 = str_datetime t2 -> t1 = t2.
Proof.
  intros V1 V2 E.
  rewrite (str_datetime_fixed _ V1), (str_datetime_fixed _ V2) in E.
  destruct V1 as (Hy1 & Hm1 & Hd1 & Hh1 & Hmi1 & Hs1 & Hus1).
  destruct V2 as (Hy2 & Hm2 & Hd2 & Hh2 & Hmi2 & Hs2 & Hus2).
  pose proof (days_in_month_le (year t1) (month t1)).
  pose proof (days_in_month_le (year t2) (month t2)).
  pose proof (f_equal length E) as L.
  destruct t1 as [y1 m1 d1 h1 mi1 s1 us1], t2 as [y2 m2 d2 h2 mi2 s2 us2].
  simpl in *.
  assert (us1 = us2 /\
          seconds_form (mk_datetime y1 m1 d1 h1 mi1 s1 us1) =
          seconds_form (mk_datetime y2 m2 d2 h2 mi2 s2 us2)) as [-> E'].
  { destruct (N.eqb_spec us1 0) as [->|], (N.eqb_spec us2 0) as [->|];
      rewrite ?length_seconds_form, ?length_microseconds_form in L;
      try discriminate; [done|].
    unfold microseconds_form, seconds_form in *.
    rewrite !(app_assoc (date_part _)), !(app_assoc _ (time_part _)) in E.
    apply app_inj_2 in E as [E1 E2]; [|done].
    split; [|by rewrite <- !app_assoc in E1].
    unfold fraction_part in E2. apply app_inj_1 in E2 as [_ E2]; [|done].
    eapply fixed_inj; [| |exact E2]; simpl; lia. }
  unfold seconds_form, date_part, time_part in E'. cbn [year month day hour minute second] in E'.
  rewrite <- !app_assoc in E'.
  repeat (apply fixed_app_inj in E' as [-> E']; [|simpl; lia..];
          apply app_inj_1 in E' as [_ E']; [|done]).
  rewrite <- (app_nil_r (fixed 2 s1)), <- (app_nil_r (fixed 2 s2)) in E'.
  apply fixed_app_inj in E' as [-> _]; [done|simpl; lia..].
Qed.

Lemma fixed_digits (w : nat) (n c : N) : c ∈ fixed w n -> 48 <= c <= 57.
Proof.
  revert n. induction w as [|w IH]; intros n.
  - by intros ?%elem_of_nil.
  - change (fixed (S w) n) with (fixed w (n / 10) ++ [digit (n mod 10)]).
    rewrite elem_of_app, list_elem_of_singleton. intros [?| ->]; [eauto|].
    unfold digit, Char.zero.
    assert (n mod 10 < 10) by (apply N.mod_upper_bound; lia). generalize dependent (n mod 10); intros; lia.
Qed.

Lemma upper_T_not_in_microseconds_form t : Char.upper_T ∉ microseconds_form t.
Proof.
  unfold microseconds_form, date_part, time_part, fraction_part.
  rewrite !elem_of_app, !list_elem_of_singleton.
  intros H. destruct_or!; try discriminate;
    match goal with H : _ ∈ fixed _ _ |- _ =>
      apply fixed_digits in H; unfold Char.upper_T in H; lia end.
Qed.

Lemma upper_T_not_in_seconds_form t : Char.upper_T ∉ seconds_form t.
Proof.
  unfold seconds_form, date_part, time_part.
  rewrite !elem_of_app, !list_elem_of_singleton.
  intros H. destruct_or!; try discriminate;
    match goal with H : _ ∈ fixed _ _ |- _ =>
      apply fixed_digits in H; unfold Char.upper_T in H; lia end.
Qed.
End Datetime.

Section Numbers.
Local Open Scope N_scope.
Import Json.

Lemma is_digit_digit (d : N) : d < 10 -> is_digit (digit d) = true.
Proof. unfold is_digit, digit, Char.zero. intros. apply andb_true_iff. rewrite !N.leb_le. lia. Qed.

Lemma digit_value (d : N) : digit d - 48 = d.
Proof. unfold digit, Char.zero. lia. Qed.

Lemma mod10_lt (n : N) : n mod 10 < 10.
Proof. apply N.mod_upper_bound. lia. Qed.

Lemma div_mod_10 (n : N) : n = 10 * (n / 10) + n mod 10.
Proof. apply N.div_mod. lia. Qed.

Lemma scan_digits_dec_rev (f : nat) (n acc : N) (rest : str) :
  n < 2 ^ N.of_nat f ->
  scan_digits acc (rev (dec_rev f n) ++ rest) =
  scan_digits (acc * 10 ^ N.of_nat (length (dec_rev f n)) + n) rest.
Proof.
  revert n acc rest. induction f as [|f IH]; intros n acc rest Hf.
  - simpl in Hf. assert (n = 0) as -> by lia. simpl. f_equal. lia.
  - cbn [dec_rev].
    assert (Hstep : forall a, scan_digits a (digit (n mod 10) :: rest)
              = scan_digits (10 * a + n mod 10) rest).
    { intros a. cbn [scan_digits].
      by rewrite is_digit_digit, digit_value by apply mod10_lt. }
    pose proof (div_mod_10 n) as Hn.
    pose proof (div10_lt_pow2 _ _ Hf) as Hq.
    destruct (N.eqb_spec (n / 10) 0) as [Hz|Hz].
    + cbn [rev app length]. rewrite Hstep. f_equal.
      change (10 ^ N.of_nat 1) with 10.
      rewrite Hz in Hn. generalize dependent (n mod 10). intros. lia.
    + cbn [rev length]. rewrite <- app_assoc. cbn [app].
      rewrite IH by done. rewrite Hstep. f_equal.
      rewrite Nat2N.inj_succ, N.pow_succ_r'.
      generalize (10 ^ N.of_nat (length (dec_rev f (n / 10)))).
      generalize dependent (n / 10). generalize dependent (n mod 10).
      intros. subst n. ring.
Qed.

Lemma scan_digits_str_N (n acc : N) (rest : str) :
  exists k, scan_digits acc (str_N n ++ rest) = scan_digits (acc * 10 ^ k + n) rest.
Proof. eexists. apply scan_digits_dec_rev, str_N_fuel. Qed.

(** The first digit of a positive number is not zero. *)
Lemma dec_rev_head (f : nat) (n : N) :
  0 < n -> n < 2 ^ N.of_nat f ->
  exists c tl, rev (dec_rev f n) = c :: tl /\ 49 <= c <= 57.
Proof.
  revert n. induction f as [|f IH]; intros n Hn Hf.
  - simpl in Hf. lia.
  - cbn [dec_rev]. destruct (N.eqb_spec (n / 10) 0) as [Hz|Hz].
    + exists (digit (n mod 10)), []. split; [done|].
      pose proof (div_mod_10 n) as Hdm. rewrite Hz in Hdm.
      pose proof (mod10_lt n).
      unfold digit, Char.zero. generalize dependent (n mod 10). intros. lia.
    + destruct (IH (n / 10)) as (c & tl & E & Hc); [lia|by apply div10_lt_pow2|].
      exists c, (tl ++ [digit (n mod 10)]). cbn [rev]. by rewrite E.
Qed.

Lemma str_N_zero : str_N 0 = [Char.zero].
Proof. reflexivity. Qed.

Lemma str_N_head (n : N) :
  0 < n -> exists c tl, str_N n = c :: tl /\ 49 <= c <= 57.
Proof. intros. apply dec_rev_head; [done|apply str_N_fuel]. Qed.

Lemma scan_digits_end (acc : N) (rest : str) :
  value_end rest -> scan_digits acc rest = (acc, rest).
Proof.
  destruct rest as [|c rest]; [done|].
  intros [->|[->| ->]]; reflexivity.
Qed.

Lemma float_follows_end (rest : str) : value_end rest -> float_follows rest = false.
Proof.
  destruct rest as [|c [|d rest]]; [done..|].
  intros [->|[->| ->]]; reflexivity.
Qed.

Lemma scan_natural_str_N (n : N) (rest : str) :
  value_end rest -> scan_natural (str_N n ++ rest) = Some (n, rest).
Proof.
  intros Hend. destruct (N.eq_dec n 0) as [->|Hn].
  - reflexivity.
  - destruct (str_N_head n) as (c & tl & E & Hc); [lia|].
    destruct (scan_digits_str_N n 0 rest) as [k Hk].
    rewrite E in Hk |- *. cbn [app scan_natural].
    destruct (N.eqb_spec c 48); [lia|].
    cbn [app scan_digits] in Hk.
    assert (is_digit c = true) as Hd
      by (apply andb_true_iff; rewrite !N.leb_le; lia).
    rewrite Hd in Hk |- *. f_equal.
    change (10 * 0 + (c - 48)) with (c - 48) in Hk. rewrite Hk.
    rewrite scan_digits_end by done. f_equal; lia.
Qed.

Lemma str_N_not_minus (n : N) (rest : str) :
  exists c tl, str_N n ++ rest = c :: tl /\ c <> Char.minus.
Proof.
  destruct (N.eq_dec n 0) as [->|Hn].
  - by exists Char.zero, rest.
  - destruct (str_N_head n) as (c & tl & E & Hc); [lia|].
    exists c, (tl ++ rest). rewrite E. split; [done|unfold Char.minus; lia].
Qed.

Lemma scan_number_str_int (I : interpreter) (z : Z) (rest : str) :
  value_end rest ->
  exceeds_digits I (length (str_N (Z.abs_N z))) = false ->
  scan_number I (str_int z ++ rest) = Some (PyInt z, rest).
Proof.
  intros Hend Hd. unfold str_int, scan_number.
  destruct (Z.ltb_spec z 0) as [Hz|Hz].
  - cbn [app]. change (Char.minus =? 45) with true. cbn match.
    rewrite scan_natural_str_N, float_follows_end by done.
    rewrite length_app, Nat.add_sub, Hd.
    do 3 f_equal. lia.
  - destruct (str_N_not_minus (Z.to_N z) rest) as (c & tl & E & Hc).
    pose proof (scan_natural_str_N (Z.to_N z) rest Hend) as Hs.
    assert (Z.abs_N z = Z.to_N z) as Habs by lia. rewrite Habs in Hd.
    assert ((length (c :: tl) - length rest)%nat = length (str_N (Z.to_N z))) as Hlen
      by (rewrite <- E, length_app; apply Nat.add_sub).
    rewrite E in Hs |- *.
    destruct (N.eqb_spec c 45) as [->|_]; [done|].
    rewrite Hs, float_follows_end, Hlen, Hd by done.
    do 3 f_equal. lia.
Qed.
End Numbers.

Ltac case_cmp :=
  repeat match goal with
    | |- context [N.eqb ?a ?b] => destruct (N.eqb_spec a b); try lia; cbn [andb orb negb]
    | |- context [N.leb ?a ?b] => destruct (N.leb_spec a b); try lia; cbn [andb orb negb]
    | |- context [N.ltb ?a ?b] => destruct (N.ltb_spec a b); try lia; cbn [andb orb negb]
    end.

Section Strings.
Local Open Scope N_scope.
Import Json.

Lemma lor_shiftl_low (a b k : N) :
  b < 2 ^ k -> N.lor (N.shiftl a k) b = a * 2 ^ k + b.
Proof.
  intros Hb. rewrite <- N.lxor_lor, <- N.add_nocarry_lxor, N.shiftl_mul_pow2; try done.
  all: apply N.bits_inj; intros i; rewrite N.land_spec, N.bits_0;
    destruct (N.lt_ge_cases i k) as [Hi|Hi];
    [by rewrite N.shiftl_spec_low|
      rewrite <- (N.mod_small b (2 ^ k)) by done;
      rewrite N.mod_pow2_bits_high by done; apply andb_false_r].
Qed.

Lemma unhex_hex_digit (d : N) : d < 16 -> unhex (hex_digit d) = Some d.
Proof.
  intros Hd. unfold hex_digit. destruct (N.ltb_spec d 10);
    unfold unhex; case_cmp; first [f_equal; lia | exfalso; lia].
Qed.

Lemma decode_fmt_04x (n : N) :
  n < 0x10000 ->
  exists h1 h2 h3 h4,
    fmt_04x n = [h1; h2; h3; h4] /\ decode_uXXXX h1 h2 h3 h4 = Some n.
Proof.
  intros Hn. do 4 eexists. split; [reflexivity|].
  unfold decode_uXXXX. rewrite !unhex_hex_digit by lia. f_equal. lia.
Qed.

Lemma high_half_eq (c : N) : high_half c = 0xd800 + ((c - 0x10000) / 1024) mod 1024.
Proof.
  unfold high_half. change 0xd800 with (N.shiftl 54 10) at 1.
  change 0x3ff with (N.ones 10). rewrite N.land_ones, N.shiftr_div_pow2.
  rewrite lor_shiftl_low; [reflexivity|]. apply N.mod_upper_bound. done.
Qed.

Lemma low_half_eq (c : N) : low_half c = 0xdc00 + (c - 0x10000) mod 1024.
Proof.
  unfold low_half. change 0xdc00 with (N.shiftl 55 10) at 1.
  change 0x3ff with (N.ones 10). rewrite N.land_ones.
  rewrite lor_shiftl_low; [reflexivity|]. apply N.mod_upper_bound. done.
Qed.

Lemma join_halves (c : N) :
  0x10000 <= c < 0x110000 ->
  0x10000 + N.lor (N.shiftl (high_half c - 0xd800) 10) (low_half c - 0xdc00) = c.
Proof.
  intros Hc. rewrite high_half_eq, low_half_eq.
  rewrite lor_shiftl_low.
  - change (2 ^ 10) with 1024. lia.
  - change (2 ^ 10) with 1024. lia.
Qed.

Lemma high_half_range (c : N) :
  0x10000 <= c < 0x110000 -> 0xd800 <= high_half c <= 0xdbff.
Proof. intros. rewrite high_half_eq. lia. Qed.

Lemma low_half_range (c : N) : 0xdc00 <= low_half c <= 0xdfff.
Proof. intros. rewrite low_half_eq. lia. Qed.
End Strings.

Section Scan.
Local Open Scope N_scope.
Import Json.

Lemma escape_char_shape (c : N) : escape_shape c (escape_char c).
Proof.
  unfold escape_char.
  destruct (N.eqb_spec c 92) as [->|?]; [by apply (shape_short _ 92)|].
  destruct (N.eqb_spec c 34) as [->|?]; [by apply (shape_short _ 34)|].
  destruct (N.eqb_spec c 8) as [->|?]; [by apply (shape_short _ 98)|].
  destruct (N.eqb_spec c 12) as [->|?]; [by apply (shape_short _ 102)|].
  destruct (N.eqb_spec c 10) as [->|?]; [by apply (shape_short _ 110)|].
  destruct (N.eqb_spec c 13) as [->|?]; [by apply (shape_short _ 114)|].
  destruct (N.eqb_spec c 9) as [->|?]; [by apply (shape_short _ 116)|].
  destruct (N.leb_spec 32 c); cbn [andb].
  - destruct (N.leb_spec c 126); [by apply shape_plain|].
    destruct (N.ltb_spec c 0x10000); [by apply shape_u|by apply shape_pair].
  - destruct (N.ltb_spec c 0x10000); [by apply shape_u|by apply shape_pair].
Qed.

Lemma scan_plain (c : N) (tl : str) :
  32 <= c -> c <> 34 -> c <> 92 ->
  scanstring (c :: tl) = push c (scanstring tl).
Proof.
  intros. cbn [scanstring]. case_cmp. reflexivity.
Qed.

Lemma scan_short (e c : N) (tl : str) :
  unescape e = Some c -> e <> 117 ->
  scanstring (92 :: e :: tl) = push c (scanstring tl).
Proof.
  intros Hu He. cbn [scanstring].
  change (92 =? 34) with false. change (92 =? 92) with true. cbn match.
  destruct (N.eqb_spec e 117); [done|]. by rewrite Hu.
Qed.

Lemma scan_u (c : N) (tl : str) :
  c < 0x10000 ->
  (is_high_surrogate c = true -> no_low_escape tl) ->
  scanstring (backslash_u c ++ tl) = push c (scanstring tl).
Proof.
  intros Hc Hhigh.
  destruct (decode_fmt_04x c Hc) as (h1 & h2 & h3 & h4 & E & D).
  unfold backslash_u. rewrite E. cbn [app scanstring].
  change (92 =? 34) with false. change (92 =? 92) with true.
  change (117 =? 117) with true. cbn match. rewrite D.
  destruct (is_high_surrogate c); [|done].
  specialize (Hhigh eq_refl).
  destruct tl as [|b [|u s4]]; [done..|]. cbn [no_low_escape] in Hhigh.
  destruct ((b =? 92) && (u =? 117)); [|done].
  destruct Hhigh as (g1 & g2 & g3 & g4 & s5 & u2 & -> & D2 & L); [done|].
  by rewrite D2, L.
Qed.

Lemma scan_pair (c : N) (tl : str) :
  0x10000 <= c < 0x110000 ->
  scanstring (backslash_u (high_half c) ++ backslash_u (low_half c) ++ tl)
  = push c (scanstring tl).
Proof.
  intros Hc.
  pose proof (high_half_range c Hc) as Hh. pose proof (low_half_range c) as Hl.
  destruct (decode_fmt_04x (high_half c)) as (h1 & h2 & h3 & h4 & E & D); [lia|].
  destruct (decode_fmt_04x (low_half c)) as (g1 & g2 & g3 & g4 & E' & D'); [lia|].
  unfold backslash_u. rewrite E, E'. cbn [app scanstring].
  change (92 =? 34) with false. change (92 =? 92) with true.
  change (117 =? 117) with true. cbn match. rewrite D.
  assert (is_high_surrogate (high_half c) = true) as ->
    by (unfold is_high_surrogate; apply andb_true_iff; rewrite !N.leb_le; lia).
  cbn [andb]. rewrite D'.
  assert (is_low_surrogate (low_half c) = true) as ->
    by (unfold is_low_surrogate; apply andb_true_iff; rewrite !N.leb_le; lia).
  by rewrite join_halves.
Qed.

Lemma no_low_escape_body (s rest : str) :
  match s with c :: _ => is_low_surrogate c = false | [] => True end ->
  forallb (fun c => c <? 0x110000) s = true ->
  no_low_escape (escape_body s ++ Char.quote :: rest).
Proof.
  destruct s as [|c s]; intros Hlow Hr.
  - cbn. destruct rest; [done|]. intros [=].
  - cbn [forallb] in Hr. apply andb_true_iff in Hr as [Hc%N.ltb_lt _].
    unfold escape_body. cbn [flat_map]. rewrite <- app_assoc.
    destruct (escape_char_shape c) as [? ? ?|e He ?|?|?].
    + cbn [app]. destruct (flat_map _ _ ++ _); [done|]. cbn.
      destruct (N.eqb_spec c 92); [done|]. intros [=].
    + cbn. destruct (N.eqb_spec e 117); [done|]. intros [=].
    + destruct (decode_fmt_04x c) as (h1 & h2 & h3 & h4 & E & D); [done|].
      unfold backslash_u. rewrite E. cbn. intros _. by eauto 10.
    + destruct (decode_fmt_04x (high_half c)) as (h1 & h2 & h3 & h4 & E & D).
      { pose proof (high_half_range c). lia. }
      unfold backslash_u. rewrite E. cbn. intros _.
      do 6 eexists. split; [reflexivity|]. split; [exact D|].
      pose proof (high_half_range c).
      unfold is_low_surrogate. apply andb_false_iff. rewrite !N.leb_gt. lia.
Qed.

(** Decoding the escaped form of a string gives the string back. *)
Lemma scanstring_escape_body (s rest : str) :
  str_ok s = true ->
  scanstring (escape_body s ++ Char.quote :: rest) = Some (s, rest).
Proof.
  unfold str_ok. rewrite andb_true_iff. intros [Hr Hp].
  induction s as [|c s IH].
  - reflexivity.
  - cbn [forallb] in Hr. apply andb_true_iff in Hr as [Hc%N.ltb_lt Hr].
    cbn [no_surrogate_pair] in Hp. apply andb_true_iff in Hp as [Hcc Hp].
    specialize (IH Hr Hp).
    unfold escape_body in *. cbn [flat_map]. rewrite <- app_assoc.
    destruct (escape_char_shape c) as [? ? ?|e He ?|?|?].
    + cbn [app]. rewrite scan_plain by done. by rewrite IH.
    + cbn [app]. rewrite (scan_short e c) by done. by rewrite IH.
    + rewrite scan_u; [by rewrite IH|done|].
      intros Hhigh. apply no_low_escape_body; [|done].
      destruct s; [done|]. rewrite Hhigh in Hcc. cbn [andb] in Hcc.
      by apply negb_true_iff in Hcc.
    + rewrite <- app_assoc, scan_pair by done. by rewrite IH.
Qed.

Lemma scanstring_encode (s rest : str) :
  str_ok s = true ->
  exists tl, encode_basestring_ascii s ++ rest = Char.quote :: tl /\
             scanstring tl = Some (s, rest).
Proof.
  intros Hs. exists (escape_body s ++ Char.quote :: rest). split.
  - unfold encode_basestring_ascii. by rewrite <- !app_assoc.
  - by apply scanstring_escape_body.
Qed.
End Scan.

Section Dict.
Context {V : Type}.

Lemma dict_set_fresh (d : list (str * V)) (k : str) (v : V) :
  k ∉ map fst d -> dict_set d k v = d ++ [(k, v)].
Proof.
  induction d as [|[k' v'] d IH]; intros Hk; [done|].
  cbn in *. apply not_elem_of_cons in Hk as [Hne Hk].
  destruct (decide (k' = k)); [congruence|]. by rewrite IH.
Qed.

Lemma dict_of_pairs_from (acc pairs : list (str * V)) :
  NoDup (map fst (acc ++ pairs)) ->
  fold_left (fun d kv => dict_set d (fst kv) (snd kv)) pairs acc = acc ++ pairs.
Proof.
  revert acc. induction pairs as [|[k v] pairs IH]; intros acc Hnd.
  - by rewrite app_nil_r.
  - cbn [fold_left fst snd]. rewrite dict_set_fresh.
    + rewrite IH; rewrite <- app_assoc; done.
    + rewrite map_app in Hnd. cbn in Hnd.
      apply NoDup_app in Hnd as (_ & Hd & _).
      intros Hin. apply (Hd k Hin). left.
Qed.

(** [dict(pairs)] keeps pairs whose keys are distinct as they are. *)
Lemma dict_of_pairs_nodup (pairs : list (str * V)) :
  NoDup (map fst pairs) -> dict_of_pairs pairs = pairs.
Proof. intros. by apply (dict_of_pairs_from []). Qed.
End Dict.

Section Values.
Local Open Scope N_scope.
Import Json.

Lemma skip_ws_start (c : N) (tl : str) :
  is_ws c = false -> skip_ws (c :: tl) = c :: tl.
Proof. intros H. cbn. by rewrite H. Qed.

Lemma str_int_head (z : Z) (rest : str) :
  exists c tl, str_int z ++ rest = c :: tl /\ (c = 45 \/ 48 <= c <= 57).
Proof.
  unfold str_int. destruct (z <? 0)%Z.
  - exists Char.minus. eexists. split; [reflexivity|by left].
  - destruct (N.eq_dec (Z.to_N z) 0) as [->|Hn].
    + exists Char.zero, rest. split; [done|]. right. unfold Char.zero. lia.
    + destruct (str_N_head (Z.to_N z)) as (c & tl & E & Hc); [lia|].
      exists c, (tl ++ rest). rewrite E. split; [done|]. lia.
Qed.

Lemma dumps_head (v : pyvalue) (rest : str) :
  exists c tl, dumps v ++ rest = c :: tl /\ value_start c.
Proof.
  destruct v as [|[|]|z|s|l|d]; try (do 2 eexists; split; [reflexivity|done]).
  destruct (str_int_head z rest) as (c & tl & E & Hc).
  exists c, tl. split; [done|]. unfold value_start, is_ws, Char.rbracket, Char.rbrace.
  split; [case_cmp; done|lia].
Qed.

Lemma scan_once_S (I : interpreter) (f depth : nat) (c : N) (s1 : str) :
  scan_once I (S f) depth (c :: s1) =
    if c =? 34 then
      match scanstring s1 with
      | Some (x, rest) => Some (PyStr x, rest)
      | None => None
      end
    else if c =? 123 then
      match depth with
      | O => None
      | S d =>
          match skip_ws s1 with
          | c' :: s2 =>
              if c' =? 125 then Some (PyDict [], s2)
              else
                match scan_members I f d (c' :: s2) with
                | Some (pairs, rest) => Some (PyDict (dict_of_pairs pairs), rest)
                | None => None
                end
          | [] => None
          end
      end
    else if c =? 91 then
      match depth with
      | O => None
      | S d =>
          match skip_ws s1 with
          | c' :: s2 =>
              if c' =? 93 then Some (PyList [], s2)
              else
                match scan_items I f d (c' :: s2) with
                | Some (vs, rest) => Some (PyList vs, rest)
                | None => None
                end
          | [] => None
          end
      end
    else if c =? 110 then
      match starts_with (lit "null") (c :: s1) with
      | Some rest => Some (PyNone, rest)
      | None => None
      end
    else if c =? 116 then
      match starts_with (lit "true") (c :: s1) with
      | Some rest => Some (PyBool true, rest)
      | None => None
      end
    else if c =? 102 then
      match starts_with (lit "false") (c :: s1) with
      | Some rest => Some (PyBool false, rest)
      | None => None
      end
    else scan_number I (c :: s1).
Proof. reflexivity. Qed.

Lemma scan_items_S (I : interpreter) (f depth : nat) (s : str) :
  scan_items I (S f) depth s =
    match scan_once I f depth s with
    | None => None
    | Some (v, s1) =>
        match skip_ws s1 with
        | c :: s2 =>
            if c =? 93 then Some ([v], s2)
            else if c =? 44 then
              match scan_items I f depth (skip_ws s2) with
              | Some (vs, rest) => Some (v :: vs, rest)
              | None => None
              end
            else None
        | [] => None
        end
    end.
Proof. reflexivity. Qed.

Lemma scan_members_S (I : interpreter) (f depth : nat) (q : N) (s0 : str) :
  scan_members I (S f) depth (q :: s0) =
    if q =? 34 then
      match scanstring s0 with
      | None => None
      | Some (k, s1) =>
          match skip_ws s1 with
          | c :: s2 =>
              if c =? 58 then
                match scan_once I f depth (skip_ws s2) with
                | None => None
                | Some (v, s3) =>
                    match skip_ws s3 with
                    | c' :: s4 =>
                        if c' =? 125 then Some ([(k, v)], s4)
                        else if c' =? 44 then
                          match scan_members I f depth (skip_ws s4) with
                          | Some (kvs, rest) => Some ((k, v) :: kvs, rest)
                          | None => None
                          end
                        else None
                    | [] => None
                    end
                end
              else None
          | [] => None
          end
      end
    else None.
Proof. reflexivity. Qed.

Lemma first_error_cons (o : option exn) (results : list (option exn)) :
  first_error (o :: results) = None <-> o = None /\ first_error results = None.
Proof. destruct o; cbn [first_error]; split; intros H; [done|by destruct H|done|by destruct H]. Qed.

Lemma first_error_None {A} (f : A -> option exn) (l : list A) :
  first_error (map f l) = None <-> Forall (fun x => f x = None) l.
Proof.
  induction l as [|x l IH]; cbn [map].
  - split; [constructor|done].
  - rewrite first_error_cons, Forall_cons, IH. done.
Qed.

Lemma dumps_error_at_list (I : interpreter) (depth : nat) (l : list pyvalue) :
  dumps_error_at I depth (PyList l) =
    match depth with
    | O => Some RecursionError
    | S d => first_error (map (dumps_error_at I d) l)
    end.
Proof. destruct depth; reflexivity. Qed.

Lemma dumps_error_at_dict (I : interpreter) (depth : nat) (kvs : list (str * pyvalue)) :
  dumps_error_at I depth (PyDict kvs) =
    match depth with
    | O => Some RecursionError
    | S d => first_error (map (fun kv => dumps_error_at I d (snd kv)) kvs)
    end.
Proof. destruct depth; reflexivity. Qed.

Lemma scan_items_join (I : interpreter) (d : nat) (l : list pyvalue) :
  l <> [] -> Forall (reads_back I) l -> forallb well_formed l = true ->
  Forall (fun x => dumps_error_at I d x = None) l ->
  forall (fuel : nat) (rest : str),
    (list_sum (map (fun x => S (size x)) l) <= fuel)%nat ->
    scan_items I fuel d (join item_separator (map dumps l) ++ Char.rbracket :: rest)
    = Some (l, rest).
Proof.
  induction l as [|x l IH]; [done|]. intros _ HF Hwf Herr fuel rest Hfuel.
  apply Forall_cons in HF as [Hx HF]. apply Forall_cons in Herr as [Hex Herr].
  cbn [forallb] in Hwf. apply andb_true_iff in Hwf as [Hwx Hwf].
  cbn [map list_sum fold_right] in Hfuel.
  destruct fuel as [|f]; [lia|]. rewrite scan_items_S.
  cbn [map join]. destruct l as [|y l].
  - cbn [map list_sum fold_right] in Hfuel |- *.
    rewrite Hx; [|done|lia|done|right; by left]. reflexivity.
  - cbn [map list_sum fold_right] in Hfuel |- *. rewrite <- !app_assoc.
    rewrite Hx; [|done|lia|done|by left].
    change (item_separator ++ ?t) with (Char.comma :: Char.space :: t).
    rewrite (skip_ws_start Char.comma) by done.
    change (Char.comma =? 93) with false.
    change (Char.comma =? 44) with true. cbn match.
    change (skip_ws (Char.space :: ?t)) with (skip_ws t).
    specialize (IH ltac:(done) HF Hwf Herr f rest
                  ltac:(cbn [map list_sum fold_right] in *; lia)).
    cbn [map] in IH.
    destruct (dumps_head y (match map dumps l with [] => [] | _ :: _ => item_separator ++ join item_separator (map dumps l) end ++ Char.rbracket :: rest))
      as (c & tl & E & Hc & _).
    assert (join item_separator (dumps y :: map dumps l) ++ Char.rbracket :: rest = c :: tl) as E'.
    { rewrite <- E. cbn [join]. destruct (map dumps l); [done|]. by rewrite <- !app_assoc. }
    rewrite E' in IH |- *. rewrite skip_ws_start by done. by rewrite IH.
Qed.
End Values.

Section Values2.
Local Open Scope N_scope.
Import Json.

Lemma dumps_list (l : list pyvalue) :
  dumps (PyList l) =
  [Char.lbracket] ++ join item_separator (map dumps l) ++ [Char.rbracket].
Proof. reflexivity. Qed.

Lemma dumps_dict (d : list (str * pyvalue)) :
  dumps (PyDict d) =
  [Char.lbrace] ++ join item_separator (map dumps_member d) ++ [Char.rbrace].
Proof. reflexivity. Qed.

Lemma scan_members_join (I : interpreter) (depth : nat) (d : list (str * pyvalue)) :
  d <> [] -> Forall (fun kv => reads_back I (snd kv)) d ->
  forallb (fun kv => str_ok (fst kv) && well_formed (snd kv)) d = true ->
  Forall (fun kv => dumps_error_at I depth (snd kv) = None) d ->
  forall (fuel : nat) (rest : str),
    (list_sum (map (fun kv => S (size (snd kv))) d) <= fuel)%nat ->
    scan_members I fuel depth
      (join item_separator (map dumps_member d) ++ Char.rbrace :: rest)
    = Some (d, rest).
Proof.
  induction d as [|[k x] d IH]; [done|]. intros _ HF Hwf Herr fuel rest Hfuel.
  apply Forall_cons in HF as [Hx HF]. cbn [snd] in Hx.
  apply Forall_cons in Herr as [Hex Herr]. cbn [snd] in Hex.
  cbn [forallb fst snd] in Hwf.
  apply andb_true_iff in Hwf as [[Hk Hwx]%andb_true_iff Hwf].
  destruct fuel as [|f]; [cbn [map list_sum fold_right] in Hfuel; lia|].
  assert (forall tl, exists tl',
    dumps_member (k, x) ++ tl = Char.quote :: tl' /\
    scanstring tl' = Some (k, key_separator ++ dumps x ++ tl)) as Hkey.
  { intros tl. unfold dumps_member. cbn [fst snd]. rewrite <- !app_assoc.
    apply scanstring_encode, Hk. }
  assert (forall tl, skip_ws (Char.space :: dumps x ++ tl) = dumps x ++ tl) as Hsp.
  { intros tl. change (skip_ws (Char.space :: ?t)) with (skip_ws t).
    destruct (dumps_head x tl) as (c & tl' & -> & Hc & _). by apply skip_ws_start. }
  cbn [map join]. destruct d as [|[k' y] d].
  - cbn [map list_sum fold_right snd] in Hfuel |- *.
    destruct (Hkey (Char.rbrace :: rest)) as (tl' & -> & Hs).
    rewrite scan_members_S. change (Char.quote =? 34) with true. cbn match.
    rewrite Hs. change (key_separator ++ ?t) with (Char.colon :: Char.space :: t).
    rewrite (skip_ws_start Char.colon) by done.
    change (Char.colon =? 58) with true. cbn match.
    rewrite Hsp, Hx; [|done|lia|done|right; by right]. reflexivity.
  - cbn [map list_sum fold_right snd] in Hfuel |- *. rewrite <- !app_assoc.
    destruct (Hkey (item_separator ++
                    join item_separator (dumps_member (k', y) :: map dumps_member d) ++
                    Char.rbrace :: rest)) as (tl' & -> & Hs).
    rewrite scan_members_S. change (Char.quote =? 34) with true. cbn match.
    rewrite Hs. change (key_separator ++ ?t) with (Char.colon :: Char.space :: t).
    rewrite (skip_ws_start Char.colon) by done.
    change (Char.colon =? 58) with true. cbn match.
    rewrite Hsp, Hx; [|done|lia|done|by left].
    change (item_separator ++ ?t) with (Char.comma :: Char.space :: t).
    rewrite (skip_ws_start Char.comma) by done.
    change (Char.comma =? 125) with false.
    change (Char.comma =? 44) with true. cbn match.
    change (skip_ws (Char.space :: ?t)) with (skip_ws t).
    specialize (IH ltac:(done) HF Hwf Herr f rest
                  ltac:(cbn [map list_sum fold_right snd] in *; lia)).
    cbn [map] in IH.
    assert (exists tl, join item_separator (dumps_member (k', y) :: map dumps_member d)
                       ++ Char.rbrace :: rest = Char.quote :: tl) as [tl E].
    { cbn [join]. destruct (map dumps_member d); eexists; reflexivity. }
    rewrite E in IH |- *. rewrite skip_ws_start by done. by rewrite IH.
Qed.

(** A dumped value, whatever follows it, is read back by the scanner. *)
Lemma scan_once_dumps (I : interpreter) (v : pyvalue) : reads_back I v.
Proof.
  induction v as [| b | z | s | l IH | d IH] using pyvalue_ind;
    intros Hwf fuel depth rest Hfuel Herr Hend;
    (destruct fuel as [|f]; [cbn in Hfuel; lia|]).
  - reflexivity.
  - destruct b; reflexivity.
  - cbn [dumps]. cbn [dumps_error_at] in Herr.
    destruct (exceeds_digits I (length (str_N (Z.abs_N z)))) eqn:Hd; [done|].
    destruct (str_int_head z rest) as (c & tl & E & Hc).
    pose proof (scan_number_str_int I z rest Hend Hd) as Hn.
    rewrite E in Hn |- *. rewrite scan_once_S.
    destruct Hc as [->|Hc]; [done|]. by case_cmp.
  - cbn [dumps well_formed] in *.
    destruct (scanstring_encode s rest Hwf) as (tl & -> & Hs).
    rewrite scan_once_S. change (Char.quote =? 34) with true. cbn match.
    by rewrite Hs.
  - rewrite dumps_list. cbn [well_formed size] in *. rewrite <- !app_assoc.
    rewrite dumps_error_at_list in Herr. destruct depth as [|dp]; [done|].
    apply first_error_None in Herr.
    change ([Char.lbracket] ++ ?t) with (Char.lbracket :: t).
    rewrite scan_once_S. change (Char.lbracket =? 34) with false.
    change (Char.lbracket =? 123) with false.
    change (Char.lbracket =? 91) with true. cbn match.
    destruct l as [|x l]; [reflexivity|].
    pose proof (scan_items_join I dp (x :: l) ltac:(done) IH Hwf Herr f rest
                  ltac:(lia)) as Hi.
    change ([Char.rbracket] ++ rest) with (Char.rbracket :: rest).
    assert (exists c tl, join item_separator (map dumps (x :: l)) ++ Char.rbracket :: rest
                         = c :: tl /\ value_start c) as (c & tl & E & Hc & Hb & _).
    { cbn [map join]. destruct (map dumps l).
      - apply dumps_head.
      - rewrite <- app_assoc. apply dumps_head. }
    rewrite E in Hi |- *. rewrite skip_ws_start by done.
    destruct (N.eqb_spec c 93); [done|]. by rewrite Hi.
  - rewrite dumps_dict. cbn [well_formed size] in *. rewrite <- !app_assoc.
    rewrite dumps_error_at_dict in Herr. destruct depth as [|dp]; [done|].
    apply first_error_None in Herr.
    apply andb_true_iff in Hwf as [Hnd%bool_decide_eq_true Hwf].
    change ([Char.lbrace] ++ ?t) with (Char.lbrace :: t).
    rewrite scan_once_S. change (Char.lbrace =? 34) with false.
    change (Char.lbrace =? 123) with true. cbn match.
    destruct d as [|kv d]; [reflexivity|].
    pose proof (scan_members_join I dp (kv :: d) ltac:(done) IH Hwf Herr f rest
                  ltac:(lia)) as Hi.
    change ([Char.rbrace] ++ rest) with (Char.rbrace :: rest).
    assert (exists tl, join item_separator (map dumps_member (kv :: d))
                       ++ Char.rbrace :: rest = Char.quote :: tl) as [tl E].
    { cbn [map join]. destruct (map dumps_member d); eexists; reflexivity. }
    rewrite E in Hi |- *. rewrite skip_ws_start by done.
    change (Char.quote =? 125) with false. cbn match. rewrite Hi.
    by rewrite dict_of_pairs_nodup.
Qed.

Lemma length_str_N (n : N) : (1 <= length (str_N n))%nat.
Proof. unfold str_N. rewrite length_rev. cbn [dec_rev length]. lia. Qed.

Lemma length_join_ge (parts : list str) (g : list nat) :
  Forall2 (fun p n => n <= length p)%nat parts g ->
  (list_sum (map S g) <= S (length (join item_separator parts)))%nat.
Proof.
  induction 1 as [|p n parts g Hp Ht IH]; [cbn; lia|].
  destruct parts as [|q parts].
  - inversion_clear Ht. cbn. lia.
  - change (join item_separator (p :: q :: parts))
      with (p ++ item_separator ++ join item_separator (q :: parts)).
    rewrite !length_app. change (length item_separator) with 2%nat.
    change (list_sum (map S (n :: g))) with (S n + list_sum (map S g))%nat.
    lia.
Qed.

Lemma size_le_length (v : pyvalue) : (size v <= length (dumps v))%nat.
Proof.
  induction v as [| b | z | s | l IH | d IH] using pyvalue_ind.
  - cbn. lia.
  - destruct b; cbn; lia.
  - cbn [size dumps]. unfold str_int. destruct (z <? 0)%Z.
    + cbn [length]. lia.
    + apply length_str_N.
  - cbn [size dumps]. unfold encode_basestring_ascii.
    rewrite !length_app. cbn. lia.
  - rewrite dumps_list. cbn [size]. rewrite !length_app. cbn [length].
    rewrite <- (map_map size S).
    pose proof (length_join_ge (map dumps l) (map size l)) as H.
    rewrite Nat.add_1_r. apply le_n_S, H.
    apply Forall2_fmap, Forall_Forall2_diag. done.
  - rewrite dumps_dict. cbn [size]. rewrite !length_app. cbn [length].
    rewrite <- (map_map (fun kv => size (snd kv)) S).
    pose proof (length_join_ge (map dumps_member d) (map (fun kv => size (snd kv)) d)) as H.
    rewrite Nat.add_1_r. apply le_n_S, H.
    apply Forall2_fmap, Forall_Forall2_diag.
    eapply Forall_impl; [exact IH|]. intros [k x] Hx. unfold dumps_member.
    rewrite !length_app. cbn [snd] in *. lia.
Qed.

(** [json.loads(json.dumps(v)) == v], when [json.dumps(v)] returns. *)
Lemma loads_dumps (I : interpreter) (v : pyvalue) :
  well_formed v = true -> dumps_error I v = None -> loads I (dumps v) = Some v.
Proof.
  intros Hwf Herr. unfold loads.
  destruct (dumps_head v []) as (c & tl & E & Hc & _). rewrite app_nil_r in E.
  rewrite E, skip_ws_start, <- E by done.
  pose proof (scan_once_dumps I v Hwf (S (length (dumps v)))
                (recursion_headroom I) []) as H.
  rewrite app_nil_r in H. rewrite H; [done| |done|done].
  pose proof (size_le_length v). lia.
Qed.

(** An interpreter without a digit limit and with room for the nesting of
    [v] serializes [v]. *)
Lemma dumps_error_at_unlimited (h depth : nat) (v : pyvalue) :
  (nesting v <= depth)%nat -> dumps_error_at (mk_interpreter 0 h) depth v = None.
Proof.
  revert depth.
  induction v as [| b | z | s | l IH | d IH] using pyvalue_ind;
    intros depth Hn; try reflexivity.
  - rewrite dumps_error_at_list. cbn [nesting] in Hn.
    destruct depth as [|dp]; [lia|]. apply first_error_None.
    apply le_S_n, list_max_le in Hn. rewrite List.Forall_map in Hn.
    rewrite Forall_forall in IH, Hn |- *. intros x Hx.
    apply IH; [done|]. by apply Hn.
  - rewrite dumps_error_at_dict. cbn [nesting] in Hn.
    destruct depth as [|dp]; [lia|]. apply first_error_None.
    apply le_S_n, list_max_le in Hn. rewrite List.Forall_map in Hn.
    rewrite Forall_forall in IH, Hn |- *. intros x Hx.
    apply IH; [done|]. by apply Hn.
Qed.

Lemma length_dec_rev_ge (k f : nat) (n : N) :
  (10 ^ N.of_nat k <= n)%N -> (k < f)%nat -> (k < length (dec_rev f n))%nat.
Proof.
  revert f n. induction k as [|k IH]; intros f n Hn Hf.
  - destruct f; [lia|]. cbn [dec_rev length]. lia.
  - destruct f as [|f]; [lia|]. cbn [dec_rev].
    rewrite Nat2N.inj_succ, N.pow_succ_r' in Hn.
    assert (0 < 10 ^ N.of_nat k)%N as Hpos
      by (apply N.neq_0_lt_0, N.pow_nonzero; lia).
    assert (10 ^ N.of_nat k <= n / 10)%N as Hq.
    { generalize dependent (10 ^ N.of_nat k)%N. intros. lia. }
    destruct (N.eqb_spec (n / 10) 0) as [Hz|_]; [lia|].
    cbn [length]. apply -> Nat.succ_lt_mono. apply IH; [done|lia].
Qed.

(** A number that is at least [10 ^ k] has more than [k] digits. *)
Lemma digits_of_power (k : nat) (n : N) :
  (10 ^ N.of_nat k <= n)%N -> (k < length (str_N n))%nat.
Proof.
  intros Hn. unfold str_N. rewrite length_rev. apply length_dec_rev_ge; [done|].
  assert (0 < 10 ^ N.of_nat k)%N as Hpos
    by (apply N.neq_0_lt_0, N.pow_nonzero; lia).
  assert (2 ^ N.of_nat k <= n)%N as H2.
  { etrans; [|exact Hn]. apply N.pow_le_mono_l. lia. }
  apply N.log2_le_pow2 in H2; lia.
Qed.

(** With a digit limit set, [json.dumps] refuses an int of more digits
    than the limit, wherever it stands in the value. *)
Lemma int_beyond_the_limit (I : interpreter) (depth : nat) (z : Z) :
  (0 < max_str_digits I)%nat ->
  (10 ^ N.of_nat (max_str_digits I) <= Z.abs_N z)%N ->
  dumps_error_at I depth (PyInt z) = Some ValueError_digits.
Proof.
  intros H0 Hz%digits_of_power. cbn [dumps_error_at]. unfold exceeds_digits.
  destruct (Nat.ltb_spec 0 (max_str_digits I)); [|lia].
  destruct (Nat.ltb_spec (max_str_digits I) (length (str_N (Z.abs_N z))));
    [done|lia].
Qed.
End Values2.

(* ===================================================================== *)
(** ** The handler, call by call *)
(* ===================================================================== *)

Arguments lit : simpl never.
Arguments str_datetime : simpl never.
Arguments Json.dumps : simpl never.
Arguments split : simpl never.

Lemma playlist_url_eq :
  py_index (split Char.slash playlist_link) (-1) = Some playlist_id.
Proof. vm_compute. reflexivity. Qed.

Section Handler.
Context {W : Type} (E : environment W).

Lemma invoke_calls (event context : pyvalue) (w : W) :
  invoke E event context w =
  run E
    (Call (environ_get (lit "client_id")) (fun client_id =>
     Call (environ_get (lit "client_secret")) (fun client_secret =>
     Call (SpotifyClientCredentials client_id client_secret) (fun manager =>
     Call (Spotify manager) (fun sp =>
     Call (user_playlists sp (lit "spotify")) (fun playlists =>
     Call (playlist_tracks sp playlist_id) (fun spotify_data =>
     Call (boto3_client (lit "s3")) (fun client =>
     Call datetime_now (fun now =>
     JsonDumps spotify_data (fun body =>
     Call (put_object client bucket (object_key now) body)
          (fun _ => Return PyNone))))))))))) w.
Proof. reflexivity. Qed.

Lemma without_user_playlists_calls (event context : pyvalue) :
  lambda_handler_without_user_playlists event context =
  Call (environ_get (lit "client_id")) (fun client_id =>
  Call (environ_get (lit "client_secret")) (fun client_secret =>
  Call (SpotifyClientCredentials client_id client_secret) (fun manager =>
  Call (Spotify manager) (fun sp =>
  Call (playlist_tracks sp playlist_id) (fun spotify_data =>
  Call (boto3_client (lit "s3")) (fun client =>
  Call datetime_now (fun now =>
  JsonDumps spotify_data (fun body =>
  Call (put_object client bucket (object_key now) body)
       (fun _ => Return PyNone))))))))).
Proof. reflexivity. Qed.
End Handler.

(** Case analysis on how the environment answers the next call, and on
    whether [json.dumps] raises. *)
Ltac next_call E :=
  cbn [run];
  match goal with
  | |- context [respond E ?c ?w] =>
      destruct (respond E c w) as [[?|?] ?] eqn:?
  | |- context [Json.dumps_error (limits E) ?v] =>
      destruct (Json.dumps_error (limits E) v) eqn:?
  end.

Ltac handler_cases E :=
  rewrite ?invoke_calls;
  repeat next_call E;
  cbn [run result_of trace_of world_of fst snd].

Ltac in_list H :=
  rewrite ?elem_of_cons, ?elem_of_nil in H; destruct_or?; try contradiction.

(* ===================================================================== *)
(** ** The claims *)
(* ===================================================================== *)

Section Claims.
Context {W : Type} (E : environment W).

(** C1: an invocation that completes makes exactly one put_object call, to
    bucket "spotifyv", under the key "raw-data/to_processed/spotify_raw_" +
    str(now) + ".json" for the one clock reading [now] of the invocation,
    with body json.dumps of the one playlist-tracks response. *)
Theorem successful_run_writes_once (event context : pyvalue) (w : W) (v : pyvalue) :
  result_of (invoke E event context w) = Returned v ->
  exists now data,
    clock_readings (trace_of (invoke E event context w)) = [now] /\
    tracks_responses (trace_of (invoke E event context w)) = [data] /\
    put_calls (trace_of (invoke E event context w)) =
      [mk_write (lit "spotifyv")
         (lit "raw-data/to_processed/spotify_raw_" ++ str_datetime now ++ lit ".json")
         (Json.dumps data)].
Proof.
  handler_cases E; intros [=]. do 2 eexists. repeat split.
Qed.

(** C2: an invocation stores one object when it completes and none when it
    fails: on success the one put_object call returned; on failure no
    put_object call returned, and either none was made or the one made is
    the call that raised.  Every body handed to put_object is the whole
    serialization of the playlist-tracks response. *)
Theorem zero_or_one_stored_object (event context : pyvalue) (w : W) :
  let r := invoke E event context w in
  match result_of r with
  | Returned _ =>
      length (put_calls (trace_of r)) = 1%nat /\
      stored_objects (trace_of r) = put_calls (trace_of r)
  | Raised e =>
      stored_objects (trace_of r) = [] /\
      (put_calls (trace_of r) = [] \/ omap put_failure (trace_of r) = [e])
  end /\
  Forall (fun wr => exists data,
            tracks_responses (trace_of r) = [data] /\
            wr_body wr = Json.dumps data)
         (put_calls (trace_of r)).
Proof.
  cbv zeta. handler_cases E; (split; [auto|]);
    cbn; repeat constructor; eauto.
Qed.

(** C3: when the client-credentials exchange fails, the exception comes
    out of a call into the spotipy client: out of the manager's constructor
    when a credential is missing, out of sp.user_playlists, the first
    request, when the API refuses the credentials.  The invocation then
    ends with that exception and makes no put_object call: nothing is
    written or stored, and the clock is not read. *)
Theorem failed_token_exchange_writes_nothing
    (event context : pyvalue) (w : W) (e : exn) :
  e ∈ omap spotify_failure (trace_of (invoke E event context w)) ->
  result_of (invoke E event context w) = Raised e /\
  put_calls (trace_of (invoke E event context w)) = [] /\
  stored_objects (trace_of (invoke E event context w)) = [] /\
  clock_readings (trace_of (invoke E event context w)) = [] /\
  (StorageWrite ∉ outbound_calls (trace_of (invoke E event context w))).
Proof.
  handler_cases E; cbn; intros H; in_list H; subst;
    split_and!; try done; intros H; in_list H; discriminate.
Qed.


(** C5: splitting the fixed URL on the slash and taking element -1 gives
    "3OK8UdRoB6IfDEa1pNJTQE", and every playlist_tracks call of every
    invocation, in every environment, is made with that identifier. *)
Theorem playlist_id_is_fixed (event context : pyvalue) (w : W) :
  split Char.slash (lit "https://open.spotify.com/playlist/3OK8UdRoB6IfDEa1pNJTQE")
    = [lit "https:"; []; lit "open.spotify.com"; lit "playlist";
       lit "3OK8UdRoB6IfDEa1pNJTQE"] /\
  py_index (split Char.slash playlist_link) (-1) = Some (lit "3OK8UdRoB6IfDEa1pNJTQE") /\
  Forall (fun id => id = lit "3OK8UdRoB6IfDEa1pNJTQE")
         (tracks_requests (trace_of (invoke E event context w))).
Proof.
  split; [by vm_compute|]. split; [by vm_compute|].
  handler_cases E; cbn; repeat constructor.
Qed.

(** C6: an exception raised by a library call, or by json.dumps, is the
    result of the invocation, unchanged, and nothing is stored; no call is
    made twice.  An exception of a library call is the only failure and the
    last entry of the trace, and when that call is put_object it is the
    only put_object call.  When json.dumps raises, the eight calls before
    it have returned and put_object is not called. *)
Theorem failure_propagates (event context : pyvalue) (w : W) (e : exn) :
  e ∈ failures (trace_of (invoke E event context w)) \/
  serialization_failure E (trace_of (invoke E event context w)) e ->
  result_of (invoke E event context w) = Raised e /\
  stored_objects (trace_of (invoke E event context w)) = [] /\
  NoDup (map op_of (trace_of (invoke E event context w))) /\
  (e ∈ failures (trace_of (invoke E event context w)) ->
   failures (trace_of (invoke E event context w)) = [e] /\
   last (trace_of (invoke E event context w)) ≫= failure = Some e) /\
  (e ∈ omap put_failure (trace_of (invoke E event context w)) ->
   length (put_calls (trace_of (invoke E event context w))) = 1%nat) /\
  (serialization_failure E (trace_of (invoke E event context w)) e ->
   failures (trace_of (invoke E event context w)) = [] /\
   length (trace_of (invoke E event context w)) = 8%nat /\
   put_calls (trace_of (invoke E event context w)) = []).
Proof.
  unfold serialization_failure.
  handler_cases E; cbn;
    (intros [H|(now & data & Hc & Hd & He)];
     [in_list H; subst|try discriminate; simplify_eq]);
    try congruence;
    (split; [done|]); (split; [done|]);
    (split;
     [repeat (apply NoDup_cons; split; [intros H; in_list H; discriminate|]);
      apply NoDup_nil_2|]);
    (split; [intros H; in_list H; done|]);
    (split; [intros H; in_list H; done|]);
    intros (now' & data' & Hc' & Hd' & He'); try discriminate;
    simplify_eq; try congruence; done.
Qed.

(** C7: an invocation that completes makes exactly four outbound calls, in
    this order: the token exchange, list-playlists for user "spotify",
    get-playlist-tracks, the storage write; its nine library calls are the
    same in every environment. *)
Theorem four_outbound_calls_in_order (event context : pyvalue) (w : W) (v : pyvalue) :
  result_of (invoke E event context w) = Returned v ->
  outbound_calls (trace_of (invoke E event context w)) =
    [TokenExchange; ListPlaylists (lit "spotify");
     GetPlaylistTracks (lit "3OK8UdRoB6IfDEa1pNJTQE"); StorageWrite] /\
  length (trace_of (invoke E event context w)) = 9%nat.
Proof.
  handler_cases E; intros [=]. done.
Qed.

Lemma key_of_reading (event context : pyvalue) (w : W) (t : datetime) :
  clock_readings (trace_of (invoke E event context w)) = [t] ->
  Forall (fun k => k = object_key t) (keys (trace_of (invoke E event context w))).
Proof.
  handler_cases E; cbn; intros [=]; subst; repeat constructor.
Qed.

Lemma object_key_inj (t1 t2 : datetime) :
  valid_datetime t1 -> valid_datetime t2 ->
  object_key t1 = object_key t2 -> t1 = t2.
Proof.
  intros V1 V2 Hk. unfold object_key in Hk.
  apply app_inv_head, app_inv_tail in Hk. by apply str_datetime_inj.
Qed.

(** C8, amended: the keys of two back-to-back invocations differ exactly
    when their clock readings differ; with equal readings the keys are
    equal. *)
Theorem keys_differ_iff_clock_readings_differ
    (event1 context1 event2 context2 : pyvalue) (w : W)
    (t1 t2 : datetime) (k1 k2 : str) :
  clock_readings (back_to_back E event1 context1 event2 context2 w).1 = [t1] ->
  clock_readings (back_to_back E event1 context1 event2 context2 w).2 = [t2] ->
  valid_datetime t1 -> valid_datetime t2 ->
  k1 ∈ keys (back_to_back E event1 context1 event2 context2 w).1 ->
  k2 ∈ keys (back_to_back E event1 context1 event2 context2 w).2 ->
  k1 = k2 <-> t1 = t2.
Proof.
  unfold back_to_back. cbn [fst snd]. intros C1 C2 V1 V2 K1 K2.
  apply key_of_reading in C1, C2. rewrite Forall_forall in C1, C2.
  rewrite (C1 _ K1), (C2 _ K2). split; [by apply object_key_inj|by intros ->].
Qed.

(** C9, amended: in an environment where the list-playlists call always
    returns and leaves the world unchanged, whatever value it returns, the
    handler without that call ends the same way, leaves the same world and
    makes the same put_object call (same bucket, key and body). *)
Theorem user_playlists_removable_when_inert (event context : pyvalue) (w : W) :
  user_playlists_inert E ->
  let r := invoke E event context w in
  let r' := run E (lambda_handler_without_user_playlists event context) w in
  result_of r = result_of r' /\
  world_of r = world_of r' /\
  put_calls (trace_of r) = put_calls (trace_of r') /\
  stored_objects (trace_of r) = stored_objects (trace_of r').
Proof.
  intros Hin. cbv zeta. rewrite invoke_calls, without_user_playlists_calls.
  repeat (cbn [run];
          first
            [ match goal with
              | |- context [respond E (user_playlists ?sp ?u) ?w0] =>
                  destruct (Hin sp u w0) as [? ->]
              end
            | match goal with
              | |- context [respond E ?c ?w0] =>
                  destruct (respond E c w0) as [[?|?] ?] eqn:?
              end
            | match goal with
              | |- context [Json.dumps_error (limits E) ?v] =>
                  destruct (Json.dumps_error (limits E) v) eqn:?
              end ]);
    cbn [run result_of trace_of world_of fst snd]; done.
Qed.

Lemma separators_at (t : datetime) (tl : str) :
  let s := date_part t ++ [Char.space] ++ time_part t ++ tl in
  s !! 10%nat = Some Char.space /\
  s !! 13%nat = Some Char.colon /\
  s !! 16%nat = Some Char.colon.
Proof. cbv zeta. split_and!; reflexivity. Qed.

(** C10, amended: the timestamp in the key is str(now) of the clock
    reading: "YYYY-MM-DD HH:MM:SS.ffffff" when the microsecond field is not
    zero and "YYYY-MM-DD HH:MM:SS" when it is zero.  Either way it has a
    space at index 10 and colons at 13 and 16, contains no T, and two
    datetimes with the same rendering are equal (keys are unique down to
    the microsecond and no further). *)
Theorem key_timestamp_form (event context : pyvalue) (w : W) (t : datetime) :
  clock_readings (trace_of (invoke E event context w)) = [t] ->
  valid_datetime t ->
  Forall (fun k => k = lit "raw-data/to_processed/spotify_raw_" ++
                       str_datetime t ++ lit ".json")
         (keys (trace_of (invoke E event context w))) /\
  str_datetime t =
    (if (microsecond t =? 0)%N then seconds_form t else microseconds_form t) /\
  str_datetime t !! 10%nat = Some Char.space /\
  str_datetime t !! 13%nat = Some Char.colon /\
  str_datetime t !! 16%nat = Some Char.colon /\
  (Char.upper_T ∉ str_datetime t) /\
  (forall t', valid_datetime t' -> str_datetime t' = str_datetime t -> t' = t).
Proof.
  intros Hc Hv. split; [by apply key_of_reading|].
  split; [by apply str_datetime_fixed|].
  rewrite (str_datetime_fixed t Hv).
  pose proof (separators_at t []) as Hs0. rewrite app_nil_r in Hs0.
  pose proof (separators_at t (fraction_part t)) as Hs1.
  split_and!.
  - destruct (microsecond t =? 0)%N; [apply Hs0|apply Hs1].
  - destruct (microsecond t =? 0)%N; [apply Hs0|apply Hs1].
  - destruct (microsecond t =? 0)%N; [apply Hs0|apply Hs1].
  - destruct (microsecond t =? 0)%N;
      [apply upper_T_not_in_seconds_form|apply upper_T_not_in_microseconds_form].
  - intros t' Hv' Heq. rewrite <- (str_datetime_fixed t Hv) in Heq.
    by apply str_datetime_inj.
Qed.
End Claims.

(* ===================================================================== *)
(** ** The claims on the test double *)
(* ===================================================================== *)

Lemma successful_run_writes_once_witness :
  result_of (invoke Mock.env PyNone PyNone Mock.good) = Returned PyNone /\
  exists now data,
    clock_readings (trace_of (invoke Mock.env PyNone PyNone Mock.good)) = [now] /\
    tracks_responses (trace_of (invoke Mock.env PyNone PyNone Mock.good)) = [data] /\
    put_calls (trace_of (invoke Mock.env PyNone PyNone Mock.good)) =
      [mk_write (lit "spotifyv")
         (lit "raw-data/to_processed/spotify_raw_" ++ str_datetime now ++ lit ".json")
         (Json.dumps data)].
Proof.
  split; [reflexivity|].
  apply (successful_run_writes_once Mock.env PyNone PyNone Mock.good PyNone).
  reflexivity.
Defined.

Lemma failed_token_exchange_writes_nothing_witness :
  (Mock.SpotifyOauthError ∈
     omap spotify_failure (trace_of (invoke Mock.env PyNone PyNone Mock.wrong_secret)) /\
   omap user_playlists_failure (trace_of (invoke Mock.env PyNone PyNone Mock.wrong_secret))
     = [Mock.SpotifyOauthError] /\
   result_of (invoke Mock.env PyNone PyNone Mock.wrong_secret)
     = Raised Mock.SpotifyOauthError /\
   put_calls (trace_of (invoke Mock.env PyNone PyNone Mock.wrong_secret)) = []) /\
  (Mock.NoCredentials ∈
     omap spotify_failure (trace_of (invoke Mock.env PyNone PyNone Mock.no_secret)) /\
   result_of (invoke Mock.env PyNone PyNone Mock.no_secret) = Raised Mock.NoCredentials /\
   put_calls (trace_of (invoke Mock.env PyNone PyNone Mock.no_secret)) = []).
Proof.
  assert (Mock.SpotifyOauthError ∈
    omap spotify_failure (trace_of (invoke Mock.env PyNone PyNone Mock.wrong_secret)))
    as H1 by (vm_compute; left).
  assert (Mock.NoCredentials ∈
    omap spotify_failure (trace_of (invoke Mock.env PyNone PyNone Mock.no_secret)))
    as H2 by (vm_compute; left).
  destruct (failed_token_exchange_writes_nothing
              Mock.env PyNone PyNone Mock.wrong_secret _ H1) as (R1 & P1 & _).
  destruct (failed_token_exchange_writes_nothing
              Mock.env PyNone PyNone Mock.no_secret _ H2) as (R2 & P2 & _).
  split; [split; [exact H1|split; [reflexivity|split; [exact R1|exact P1]]]|].
  split; [exact H2|split; [exact R2|exact P2]].
Defined.



(** The default CPython refuses to serialize the track list with the
    4301-digit total. *)
Lemma huge_total_is_refused :
  Json.dumps_error Mock.cpython Mock.huge_total = Some ValueError_digits.
Proof.
  unfold Json.dumps_error, Mock.huge_total.
  change (recursion_headroom Mock.cpython) with (S 949).
  rewrite dumps_error_at_dict. cbn [map snd].
  rewrite int_beyond_the_limit; [reflexivity|cbn; lia|].
  change (max_str_digits Mock.cpython) with 4300%nat.
  rewrite Zabs2N.abs_N_nonneg by (apply Z.pow_nonneg; lia).
  rewrite Z2N.inj_pow by lia.
  apply N.le_refl.
Qed.

Lemma nested_too_deep :
  serialization_failure Mock.env
    (trace_of (invoke Mock.env PyNone PyNone
                 (Mock.with_tracks (Mock.nested 950) Mock.good)))
    RecursionError.
Proof.
  exists (Mock.running_clock 0), (Mock.nested 950).
  split_and!; by vm_compute.
Defined.

Lemma failure_propagates_witness :
  (Mock.NoSuchBucket ∈ failures (trace_of (invoke Mock.env PyNone PyNone Mock.no_bucket)) /\
   result_of (invoke Mock.env PyNone PyNone Mock.no_bucket) = Raised Mock.NoSuchBucket /\
   length (put_calls (trace_of (invoke Mock.env PyNone PyNone Mock.no_bucket))) = 1%nat) /\
  (serialization_failure Mock.env
     (trace_of (invoke Mock.env PyNone PyNone
                  (Mock.with_tracks (Mock.nested 950) Mock.good)))
     RecursionError /\
   result_of (invoke Mock.env PyNone PyNone
                (Mock.with_tracks (Mock.nested 950) Mock.good))
     = Raised RecursionError /\
   put_calls (trace_of (invoke Mock.env PyNone PyNone
                          (Mock.with_tracks (Mock.nested 950) Mock.good))) = []).
Proof.
  assert (Mock.NoSuchBucket ∈
            failures (trace_of (invoke Mock.env PyNone PyNone Mock.no_bucket)))
    as H by (vm_compute; left).
  destruct (failure_propagates Mock.env PyNone PyNone Mock.no_bucket _ (or_introl H))
    as (Hr & _ & _ & _ & Hput & _).
  destruct (failure_propagates Mock.env PyNone PyNone
              (Mock.with_tracks (Mock.nested 950) Mock.good) _
              (or_intror nested_too_deep))
    as (Hr' & _ & _ & _ & _ & Hser).
  split.
  - split; [exact H|]. split; [exact Hr|].
    apply Hput. vm_compute. left.
  - split; [exact nested_too_deep|]. split; [exact Hr'|].
    apply (Hser nested_too_deep).
Defined.

Lemma four_outbound_calls_in_order_witness :
  result_of (invoke Mock.env PyNone PyNone Mock.good) = Returned PyNone /\
  outbound_calls (trace_of (invoke Mock.env PyNone PyNone Mock.good)) =
    [TokenExchange; ListPlaylists (lit "spotify");
     GetPlaylistTracks (lit "3OK8UdRoB6IfDEa1pNJTQE"); StorageWrite] /\
  length (trace_of (invoke Mock.env PyNone PyNone Mock.good)) = 9%nat.
Proof.
  split; [reflexivity|].
  exact (four_outbound_calls_in_order Mock.env PyNone PyNone Mock.good PyNone eq_refl).
Defined.

Lemma valid_running_clock_0 : valid_datetime (Mock.running_clock 0).
Proof. unfold valid_datetime. cbn. lia. Qed.

Lemma valid_running_clock_1 : valid_datetime (Mock.running_clock 1).
Proof. unfold valid_datetime. cbn. lia. Qed.

Lemma valid_frozen_clock : valid_datetime (Mock.frozen_clock 0).
Proof. unfold valid_datetime. cbn. lia. Qed.

(** C8, as stated, fails: with a clock that stands still, two back-to-back
    invocations both store an object, under one and the same key. *)
Lemma frozen_clock_keys_collide :
  keys (back_to_back Mock.env PyNone PyNone PyNone PyNone Mock.frozen).1 =
    [lit "raw-data/to_processed/spotify_raw_2024-01-01 00:00:00.json"] /\
  keys (back_to_back Mock.env PyNone PyNone PyNone PyNone Mock.frozen).2 =
    [lit "raw-data/to_processed/spotify_raw_2024-01-01 00:00:00.json"] /\
  length (stored_objects
            (back_to_back Mock.env PyNone PyNone PyNone PyNone Mock.frozen).1) = 1%nat /\
  length (stored_objects
            (back_to_back Mock.env PyNone PyNone PyNone PyNone Mock.frozen).2) = 1%nat.
Proof. by vm_compute. Qed.

Lemma keys_differ_iff_clock_readings_differ_witness :
  clock_readings (back_to_back Mock.env PyNone PyNone PyNone PyNone Mock.good).1
    = [Mock.running_clock 0] /\
  clock_readings (back_to_back Mock.env PyNone PyNone PyNone PyNone Mock.good).2
    = [Mock.running_clock 1] /\
  (lit "raw-data/to_processed/spotify_raw_2024-05-17 08:30:00.250000.json" =
   lit "raw-data/to_processed/spotify_raw_2024-05-17 08:30:01.250000.json" <->
   Mock.running_clock 0 = Mock.running_clock 1).
Proof.
  split; [reflexivity|]. split; [reflexivity|].
  apply (keys_differ_iff_clock_readings_differ
           Mock.env PyNone PyNone PyNone PyNone Mock.good).
  - reflexivity.
  - reflexivity.
  - exact valid_running_clock_0.
  - exact valid_running_clock_1.
  - vm_compute. left.
  - vm_compute. left.
Defined.

(** C9, as stated, fails: when the list-playlists endpoint is down the
    handler stores nothing, while the handler without that call stores the
    object. *)
Lemma playlists_down_changes_the_stored_object :
  result_of (invoke Mock.env PyNone PyNone Mock.playlists_down)
    = Raised Mock.SpotifyException /\
  stored_objects (trace_of (invoke Mock.env PyNone PyNone Mock.playlists_down)) = [] /\
  result_of (run Mock.env (lambda_handler_without_user_playlists PyNone PyNone)
               Mock.playlists_down) = Returned PyNone /\
  stored_objects
    (trace_of (run Mock.env (lambda_handler_without_user_playlists PyNone PyNone)
                 Mock.playlists_down)) =
    [mk_write (lit "spotifyv")
       (lit "raw-data/to_processed/spotify_raw_2024-05-17 08:30:00.250000.json")
       (Json.dumps Mock.song_a)].
Proof. by vm_compute. Qed.

Lemma user_playlists_removable_when_inert_witness :
  user_playlists_inert Mock.steady_env /\
  put_calls (trace_of (invoke Mock.steady_env PyNone PyNone Mock.playlists_down)) =
  put_calls (trace_of (run Mock.steady_env
                         (lambda_handler_without_user_playlists PyNone PyNone)
                         Mock.playlists_down)).
Proof.
  assert (user_playlists_inert Mock.steady_env) as H
    by (intros sp user w; eexists; reflexivity).
  split; [exact H|].
  apply (user_playlists_removable_when_inert
           Mock.steady_env PyNone PyNone Mock.playlists_down H).
Defined.

(** C10, as stated, fails: at midnight sharp the timestamp in the key is
    "2024-01-01 00:00:00", nineteen characters with no fraction. *)
Lemma midnight_key_has_no_fraction :
  valid_datetime (Mock.frozen_clock 0) /\
  clock_readings (trace_of (invoke Mock.env PyNone PyNone Mock.frozen))
    = [Mock.frozen_clock 0] /\
  keys (trace_of (invoke Mock.env PyNone PyNone Mock.frozen)) =
    [lit "raw-data/to_processed/spotify_raw_2024-01-01 00:00:00.json"] /\
  str_datetime (Mock.frozen_clock 0) = lit "2024-01-01 00:00:00" /\
  length (str_datetime (Mock.frozen_clock 0)) = 19%nat /\
  str_datetime (Mock.frozen_clock 0) <> microseconds_form (Mock.frozen_clock 0).
Proof.
  split; [exact valid_frozen_clock|]. split_and!; try by vm_compute.
Qed.

Lemma key_timestamp_form_witness :
  clock_readings (trace_of (invoke Mock.env PyNone PyNone Mock.good))
    = [Mock.running_clock 0] /\
  valid_datetime (Mock.running_clock 0) /\
  str_datetime (Mock.running_clock 0) !! 10%nat = Some Char.space.
Proof.
  split; [reflexivity|]. split; [exact valid_running_clock_0|].
  apply (key_timestamp_form Mock.env PyNone PyNone Mock.good (Mock.running_clock 0)
           eq_refl valid_running_clock_0).
Defined.

(* ===================================================================== *)
(** ** Further properties of the handler and of the functions it calls *)
(* ===================================================================== *)

Section Extras.
Context {W : Type} (E : environment W).

(** X1: the two arguments of SpotifyClientCredentials are what the two
    os.environ.get calls returned for 'client_id' and 'client_secret', in
    that order, a missing variable being passed on as None: the handler
    checks neither. *)
Theorem credentials_come_from_environ (event context : pyvalue) (w : W) :
  Forall (fun cred =>
            environ_reads (trace_of (invoke E event context w)) =
              [(lit "client_id", cred.1); (lit "client_secret", cred.2)])
         (credentials_requests (trace_of (invoke E event context w))).
Proof.
  handler_cases E; cbn; repeat constructor.
Qed.

(** X2: an invocation ends in one of three ways.  It returns None after
    nine library calls none of which raised; or it raises the exception of
    the one call that raised, which is the last call made; or it raises the
    exception of json.dumps, after eight calls that all returned and with
    no put_object call.  The handler raises nothing of its own: the [-1]
    subscript is always in range. *)
Theorem three_ways_to_end (event context : pyvalue) (w : W) :
  (result_of (invoke E event context w) = Returned PyNone /\
   failures (trace_of (invoke E event context w)) = [] /\
   length (trace_of (invoke E event context w)) = 9%nat) \/
  (exists e,
     result_of (invoke E event context w) = Raised e /\
     failures (trace_of (invoke E event context w)) = [e] /\
     last (trace_of (invoke E event context w)) ≫= failure = Some e) \/
  (exists e,
     result_of (invoke E event context w) = Raised e /\
     failures (trace_of (invoke E event context w)) = [] /\
     length (trace_of (invoke E event context w)) = 8%nat /\
     put_calls (trace_of (invoke E event context w)) = [] /\
     serialization_failure E (trace_of (invoke E event context w)) e).
Proof.
  unfold serialization_failure.
  handler_cases E; cbn;
    first [ by left
          | by right; left; eexists
          | right; right; eexists; split_and!; try done; eauto ].
Qed.

(** X3: in every invocation the library calls are an initial part of the
    calls of the handler body, in its order; no call is made twice and
    every call but the last one made has returned. *)
Theorem calls_follow_the_handler_body (event context : pyvalue) (w : W) :
  map (fun ev => op_name (op_of ev)) (trace_of (invoke E event context w))
    `prefix_of` handler_calls /\
  NoDup (map op_of (trace_of (invoke E event context w))) /\
  failures (removelast (trace_of (invoke E event context w))) = [].
Proof.
  handler_cases E; cbn;
    (split; [eexists; reflexivity|]); (split; [|done]);
    repeat (apply NoDup_cons; split;
            [intros H; in_list H; discriminate|]);
    apply NoDup_nil_2.
Qed.

(** X4: when sp.user_playlists raises, the invocation ends with that
    exception before the track list is asked for: no playlist_tracks call,
    no clock reading, no put_object call. *)
Theorem user_playlists_failure_aborts (event context : pyvalue) (w : W) (e : exn) :
  e ∈ omap user_playlists_failure (trace_of (invoke E event context w)) ->
  result_of (invoke E event context w) = Raised e /\
  tracks_requests (trace_of (invoke E event context w)) = [] /\
  clock_readings (trace_of (invoke E event context w)) = [] /\
  put_calls (trace_of (invoke E event context w)) = [].
Proof.
  handler_cases E; cbn; intros H; in_list H; subst; done.
Qed.
End Extras.

Section Split.

Lemma elem_of_rev {A} (x : A) (l : list A) : x ∈ rev l <-> x ∈ l.
Proof. rewrite !list_elem_of_In. symmetry. apply in_rev. Qed.

Lemma py_index_minus_1 {A} (l : list A) : py_index l (-1) = last l.
Proof.
  unfold py_index. change (-1 <? 0)%Z with true. cbn match.
  destruct l as [|x l]; [reflexivity|].
  destruct (Z.ltb_spec (-1 + Z.of_nat (length (x :: l))) 0);
    [cbn [length] in *; lia|].
  destruct (Z.leb_spec (Z.of_nat (length (x :: l)))
              (-1 + Z.of_nat (length (x :: l)))); [lia|].
  cbn [orb]. rewrite last_lookup. f_equal. cbn [length]. lia.
Qed.

Lemma split_from_nonempty (sep : N) (cur s : str) : split_from sep cur s <> [].
Proof.
  revert cur. induction s as [|c s IH]; intros cur; cbn; [done|].
  destruct (c =? sep)%N; [done|apply IH].
Qed.

Lemma join_cons (sep x : str) (l : list str) :
  l <> [] -> Json.join sep (x :: l) = x ++ sep ++ Json.join sep l.
Proof. destruct l; [done|reflexivity]. Qed.

Lemma join_split_from (sep : N) (cur s : str) :
  Json.join [sep] (split_from sep cur s) = rev cur ++ s.
Proof.
  revert cur. induction s as [|c s IH]; intros cur; cbn [split_from].
  - cbn. by rewrite app_nil_r.
  - destruct (N.eqb_spec c sep) as [->|Hne].
    + rewrite join_cons by apply split_from_nonempty. by rewrite IH.
    + rewrite IH. cbn [rev]. by rewrite <- app_assoc.
Qed.

Lemma length_split_from (sep : N) (cur s : str) :
  length (split_from sep cur s) = S (count sep s).
Proof.
  revert cur. induction s as [|c s IH]; intros cur; cbn [split_from count]; [done|].
  destruct (c =? sep)%N; cbn [length]; by rewrite IH.
Qed.

Lemma split_from_pieces (sep : N) (cur s : str) :
  sep ∉ cur -> Forall (fun piece => sep ∉ piece) (split_from sep cur s).
Proof.
  revert cur. induction s as [|c s IH]; intros cur Hcur; cbn [split_from].
  - constructor; [|constructor]. by rewrite elem_of_rev.
  - destruct (N.eqb_spec c sep) as [->|Hne].
    + constructor; [by rewrite elem_of_rev|]. apply IH, not_elem_of_nil.
    + apply IH. rewrite not_elem_of_cons. split; [congruence|done].
Qed.

(** X6: joining the pieces of a split with the separator gives the string
    back; there is one piece more than there are separators, and no piece
    contains the separator. *)
Theorem join_split (sep : N) (s : str) :
  Json.join [sep] (split sep s) = s /\
  length (split sep s) = S (count sep s) /\
  Forall (fun piece => sep ∉ piece) (split sep s).
Proof.
  unfold split. split_and!.
  - apply join_split_from.
  - apply length_split_from.
  - apply split_from_pieces, not_elem_of_nil.
Qed.

(** X7: a non-negative index counts from the front and a negative one
    from the back, [-1] being the last element; the subscript fails exactly
    when the index is below -len or at least len. *)
Theorem py_index_from_both_ends {A} (l : list A) (i : Z) (k : nat) :
  py_index l (Z.of_nat k) = l !! k /\
  py_index l (- Z.of_nat (S k)) = reverse l !! k /\
  py_index l (-1) = last l /\
  (py_index l i = None <->
   (i < - Z.of_nat (length l) \/ Z.of_nat (length l) <= i)%Z).
Proof.
  split_and!.
  - unfold py_index. destruct (Z.ltb_spec (Z.of_nat k) 0); [lia|].
    destruct (Z.ltb_spec (Z.of_nat k) 0); [lia|].
    destruct (Z.leb_spec (Z.of_nat (length l)) (Z.of_nat k)); cbn [orb].
    + symmetry. apply lookup_ge_None. lia.
    + by rewrite Nat2Z.id.
  - unfold py_index. destruct (Z.ltb_spec (- Z.of_nat (S k)) 0); [|lia].
    destruct (Z.ltb_spec (- Z.of_nat (S k) + Z.of_nat (length l)) 0); cbn [orb].
    + symmetry. apply lookup_ge_None. rewrite length_reverse. lia.
    + destruct (Z.leb_spec (Z.of_nat (length l))
                  (- Z.of_nat (S k) + Z.of_nat (length l))); [lia|].
      rewrite reverse_lookup by lia. f_equal. lia.
  - apply py_index_minus_1.
  - unfold py_index.
    destruct (Z.ltb_spec i 0);
      [destruct (Z.ltb_spec (i + Z.of_nat (length l)) 0),
                (Z.leb_spec (Z.of_nat (length l)) (i + Z.of_nat (length l)))
      |destruct (Z.ltb_spec i 0), (Z.leb_spec (Z.of_nat (length l)) i)];
      cbn [orb]; try (split; [done|lia]); try (split; [lia|done]);
      (split; [|lia]); intros Hn%lookup_ge_None; lia.
Qed.

Lemma last_split_from (sep : N) (cur s : str) :
  sep ∉ cur ->
  exists piece,
    last (split_from sep cur s) = Some piece /\
    (sep ∉ piece) /\
    (rev cur ++ s = piece \/ exists before, rev cur ++ s = before ++ sep :: piece).
Proof.
  revert cur. induction s as [|c s IH]; intros cur Hcur; cbn [split_from].
  - exists (rev cur). split; [done|]. split; [by rewrite elem_of_rev|].
    left. by rewrite app_nil_r.
  - destruct (N.eqb_spec c sep) as [->|Hne].
    + destruct (IH [] (not_elem_of_nil _)) as (piece & Hl & Hp & Hs).
      exists piece. split.
      { destruct (split_from sep [] s) eqn:Hsp; [done|exact Hl]. }
      split; [done|]. right. cbn [rev app] in Hs.
      destruct Hs as [->|(before & ->)].
      * by exists (rev cur).
      * exists (rev cur ++ sep :: before). by rewrite <- app_assoc.
    + destruct (IH (c :: cur)) as (piece & Hl & Hp & Hs).
      { rewrite not_elem_of_cons. split; [congruence|done]. }
      exists piece. split; [done|]. split; [done|].
      cbn [rev] in Hs. by rewrite <- app_assoc in Hs.
Qed.

(** X5: for every string, split on a separator followed by [-1] never
    fails; the result has no separator in it and is the whole string or
    what follows its last separator. *)
Theorem split_last_segment (sep : N) (s : str) :
  exists piece,
    py_index (split sep s) (-1) = Some piece /\
    (sep ∉ piece) /\
    (s = piece \/ exists before, s = before ++ sep :: piece).
Proof.
  destruct (last_split_from sep [] s (not_elem_of_nil _)) as (piece & Hl & Hp & Hs).
  exists piece. split; [|done].
  by rewrite py_index_minus_1.
Qed.
End Split.

Ltac printable_consts :=
  repeat first
    [ apply Forall_nil_2
    | apply List.Forall_cons; [vm_compute; split; discriminate|] ].

Section Printable.
Import Json.
Local Open Scope N_scope.

Lemma printable_digit (n : N) : printable (digit (n mod 10)).
Proof. unfold printable, digit, Char.zero. lia. Qed.

Lemma printable_dec_rev (f : nat) (n : N) : Forall printable (dec_rev f n).
Proof.
  revert n. induction f as [|f IH]; intros n; cbn [dec_rev]; [constructor|].
  constructor; [apply printable_digit|].
  destruct (n / 10 =? 0); [constructor|apply IH].
Qed.

Lemma printable_str_N (n : N) : Forall printable (str_N n).
Proof.
  unfold str_N. rewrite Forall_forall. intros c Hc%list_elem_of_In%in_rev.
  pose proof (printable_dec_rev (S (N.to_nat (N.log2 n))) n) as H.
  rewrite Forall_forall in H. apply H. by apply list_elem_of_In.
Qed.

Lemma printable_str_int (z : Z) : Forall printable (str_int z).
Proof.
  unfold str_int. destruct (z <? 0)%Z; [constructor|]; try apply printable_str_N.
  unfold printable, Char.minus. lia.
Qed.

Lemma printable_hex_digit (n : N) : printable (hex_digit (n mod 16)).
Proof.
  unfold printable, hex_digit. destruct (N.ltb_spec (n mod 16) 10); lia.
Qed.

Lemma printable_backslash_u (n : N) : Forall printable (backslash_u n).
Proof.
  unfold backslash_u, fmt_04x.
  repeat constructor; try apply printable_hex_digit; unfold printable; lia.
Qed.

Lemma printable_escape_char (c : N) : Forall printable (escape_char c).
Proof.
  unfold escape_char.
  repeat match goal with
         | |- context [N.eqb c ?k] => destruct (N.eqb_spec c k)
         end;
    try (repeat constructor; unfold printable; lia).
  destruct (N.leb_spec 32 c), (N.leb_spec c 126); cbn [andb];
    try (repeat constructor; unfold printable; lia);
    (destruct (c <? 0x10000);
     [apply printable_backslash_u
     |apply Forall_app; split; apply printable_backslash_u]).
Qed.

Lemma printable_encode (s : str) : Forall printable (encode_basestring_ascii s).
Proof.
  unfold encode_basestring_ascii, escape_body. rewrite !Forall_app. split_and!.
  - printable_consts.
  - induction s as [|c s IH]; cbn [flat_map]; [constructor|].
    apply Forall_app. split; [apply printable_escape_char|done].
  - printable_consts.
Qed.

Lemma printable_join (sep : str) (parts : list str) :
  Forall printable sep -> Forall (Forall printable) parts ->
  Forall printable (join sep parts).
Proof.
  intros Hsep. induction 1 as [|x parts Hx Hparts IH]; [apply Forall_nil_2|].
  cbn [join]. destruct parts; [done|]. rewrite !Forall_app. done.
Qed.

Lemma printable_separators :
  Forall printable item_separator /\ Forall printable key_separator.
Proof. split; printable_consts. Qed.

(** X8: json.dumps, with its default ensure_ascii, writes printable
    ASCII only, whatever the value: no control character and no character
    above the tilde reaches the body. *)
Theorem dumps_is_printable_ascii (v : pyvalue) : Forall printable (dumps v).
Proof.
  induction v as [| b | z | s | l IH | d IH] using pyvalue_ind.
  - printable_consts.
  - destruct b; printable_consts.
  - apply printable_str_int.
  - apply printable_encode.
  - rewrite dumps_list, !Forall_app. split_and!.
    + printable_consts.
    + apply printable_join; [apply printable_separators|].
      by apply Forall_fmap.
    + printable_consts.
  - rewrite dumps_dict, !Forall_app. split_and!.
    + printable_consts.
    + apply printable_join; [apply printable_separators|].
      apply Forall_fmap. eapply Forall_impl; [exact IH|].
      intros [k x] Hx. unfold dumps_member. cbn [fst snd compose] in *.
      rewrite !Forall_app. split_and!;
        [apply printable_encode|apply printable_separators|done].
    + printable_consts.
Qed.

(** X9: two different decoded JSON documents are never serialized to the
    same body. *)
Theorem distinct_documents_distinct_bodies (v1 v2 : pyvalue) :
  well_formed v1 = true -> well_formed v2 = true ->
  v1 <> v2 -> dumps v1 <> dumps v2.
Proof.
  intros H1 H2 Hne Heq. apply Hne.
  pose (I := mk_interpreter 0 (Nat.max (nesting v1) (nesting v2))).
  assert (forall v, (nesting v <= Nat.max (nesting v1) (nesting v2))%nat ->
                    dumps_error I v = None) as HI
    by (intros v Hv; by apply dumps_error_at_unlimited).
  apply (loads_dumps I) in H1; [|apply HI; lia].
  apply (loads_dumps I) in H2; [|apply HI; lia].
  rewrite Heq in H1. congruence.
Qed.
End Printable.

Section KeyShape.
Local Open Scope N_scope.

Lemma printable_fixed (w : nat) (n : N) : Forall printable (fixed w n).
Proof.
  rewrite Forall_forall. intros c Hc%fixed_digits. unfold printable. lia.
Qed.

Lemma printable_seconds_form (t : datetime) : Forall printable (seconds_form t).
Proof.
  unfold seconds_form, date_part, time_part. rewrite !Forall_app.
  split_and!; first [apply printable_fixed|printable_consts].
Qed.

Lemma printable_microseconds_form (t : datetime) :
  Forall printable (microseconds_form t).
Proof.
  unfold microseconds_form, date_part, time_part, fraction_part.
  rewrite !Forall_app.
  split_and!; first [apply printable_fixed|printable_consts].
Qed.

Lemma object_key_shape (t : datetime) :
  valid_datetime t ->
  Forall printable (object_key t) /\
  length (object_key t) = (if (microsecond t =? 0)%N then 58%nat else 65%nat).
Proof.
  intros Hv. unfold object_key. rewrite (str_datetime_fixed t Hv).
  rewrite !Forall_app, !length_app. split.
  - split_and!; [unfold key_prefix; printable_consts| |unfold key_suffix; printable_consts].
    destruct (microsecond t =? 0);
      [apply printable_seconds_form|apply printable_microseconds_form].
  - destruct (microsecond t =? 0);
      rewrite ?length_seconds_form, ?length_microseconds_form; reflexivity.
Qed.

Context {W : Type} (E : environment W).

(** X10: every key the handler passes to put_object is printable ASCII
    and 65 characters long, 58 when the clock reading has microsecond 0. *)
Theorem keys_are_short_printable_ascii (event context : pyvalue) (w : W) (t : datetime) :
  clock_readings (trace_of (invoke E event context w)) = [t] ->
  valid_datetime t ->
  Forall (fun k => Forall printable k /\
                   length k = (if (microsecond t =? 0)%N then 58%nat else 65%nat))
         (keys (trace_of (invoke E event context w))).
Proof.
  intros Hc Hv. eapply Forall_impl; [by apply key_of_reading|].
  intros k ->. by apply object_key_shape.
Qed.
End KeyShape.

Section Order.
Local Open Scope N_scope.

Lemma str_lt_app (p a b : str) : str_lt a b -> str_lt (p ++ a) (p ++ b).
Proof. intros H. induction p as [|c p IH]; [done|]. cbn. by right. Qed.

Lemma differ_lt_str_lt (a b s1 s2 : str) :
  differ_lt a b -> str_lt (a ++ s1) (b ++ s2).
Proof.
  intros (q & x & y & r1 & r2 & -> & -> & Hxy).
  rewrite <- !app_assoc. apply str_lt_app. cbn. by left.
Qed.

Lemma differ_lt_head (a b s1 s2 : str) :
  differ_lt a b -> differ_lt (a ++ s1) (b ++ s2).
Proof.
  intros (q & x & y & r1 & r2 & -> & -> & Hxy).
  exists q, x, y, (r1 ++ s1), (r2 ++ s2). by rewrite <- !app_assoc.
Qed.

Lemma differ_lt_tail (p a b : str) : differ_lt a b -> differ_lt (p ++ a) (p ++ b).
Proof.
  intros (q & x & y & r1 & r2 & -> & -> & Hxy).
  exists (p ++ q), x, y, r1, r2. by rewrite <- !app_assoc.
Qed.

Lemma fixed_S (w : nat) (n : N) :
  fixed (S w) n = fixed w (n / 10) ++ [digit (n mod 10)].
Proof. reflexivity. Qed.

Lemma differ_lt_fixed (w : nat) (n m : N) :
  n < m -> m < 10 ^ N.of_nat w -> differ_lt (fixed w n) (fixed w m).
Proof.
  revert n m. induction w as [|w IH]; intros n m Hnm Hm.
  - cbn in Hm. lia.
  - rewrite !fixed_S. rewrite Nat2N.inj_succ, N.pow_succ_r' in Hm.
    destruct (N.lt_ge_cases (n / 10) (m / 10)) as [Hlt|Hge].
    + apply differ_lt_head, IH; [done|].
      generalize dependent (10 ^ N.of_nat w). intros. lia.
    + assert (n / 10 = m / 10) as -> by lia.
      exists (fixed w (m / 10)), (digit (n mod 10)), (digit (m mod 10)), [], [].
      split; [done|]. split; [done|]. unfold digit. lia.
Qed.

Lemma str_datetime_tail (t : datetime) :
  valid_datetime t ->
  str_datetime t =
    seconds_form t ++ (if microsecond t =? 0 then [] else fraction_part t).
Proof.
  intros Hv. rewrite (str_datetime_fixed t Hv).
  destruct (microsecond t =? 0); [by rewrite app_nil_r|].
  unfold microseconds_form, seconds_form. by rewrite <- !app_assoc.
Qed.

(** Two datetimes in order differ in their date-and-time part, or lie in
    the same second. *)
Lemma seconds_form_lt (t1 t2 : datetime) :
  valid_datetime t1 -> valid_datetime t2 -> datetime_lt t1 t2 ->
  differ_lt (seconds_form t1) (seconds_form t2) \/
  (same_second t1 t2 /\ microsecond t1 < microsecond t2).
Proof.
  intros (Hy1 & Hm1 & Hd1 & Hh1 & Hmi1 & Hs1 & Hus1)
         (Hy2 & Hm2 & Hd2 & Hh2 & Hmi2 & Hs2 & Hus2) Hlt.
  pose proof (days_in_month_le (year t1) (month t1)).
  pose proof (days_in_month_le (year t2) (month t2)).
  destruct t1 as [y1 m1 d1 h1 mi1 s1 us1], t2 as [y2 m2 d2 h2 mi2 s2 us2].
  unfold datetime_lt, datetime_fields, same_second in *.
  cbn [year month day hour minute second microsecond fields_lt] in *.
  unfold seconds_form, date_part, time_part.
  cbn [year month day hour minute second microsecond].
  rewrite <- !app_assoc.
  do 6 (destruct Hlt as [Hlt|[-> Hlt]];
        [left;
         repeat (apply (differ_lt_tail (fixed _ _)) || apply (differ_lt_tail [_]));
         first [ apply differ_lt_head, differ_lt_fixed; [done|cbn; lia]
               | apply differ_lt_fixed; [done|cbn; lia] ]
        |]).
  destruct Hlt as [Hlt|[_ []]]. by right.
Qed.

Lemma seconds_form_same_second (t1 t2 : datetime) :
  same_second t1 t2 -> seconds_form t1 = seconds_form t2.
Proof.
  intros (Hy & Hm & Hd & Hh & Hmi & Hs).
  unfold seconds_form, date_part, time_part. congruence.
Qed.

Lemma fraction_part_lt (t1 t2 : datetime) :
  valid_datetime t2 -> microsecond t1 < microsecond t2 ->
  differ_lt (fraction_part t1) (fraction_part t2).
Proof.
  intros (_ & _ & _ & _ & _ & _ & Hus) Hlt. unfold fraction_part.
  apply (differ_lt_tail [_]), differ_lt_fixed; [done|cbn; lia].
Qed.

(** X11: str() of datetimes is monotone: an earlier datetime has the
    smaller string in the order of Python's string comparison. *)
Theorem timestamps_sort_chronologically (t1 t2 : datetime) :
  valid_datetime t1 -> valid_datetime t2 -> datetime_lt t1 t2 ->
  str_lt (str_datetime t1) (str_datetime t2).
Proof.
  intros V1 V2 Hlt.
  rewrite (str_datetime_tail t1 V1), (str_datetime_tail t2 V2).
  destruct (seconds_form_lt t1 t2 V1 V2 Hlt) as [Hd|[Hs Hus]].
  - by apply differ_lt_str_lt.
  - rewrite (seconds_form_same_second t1 t2 Hs). apply str_lt_app.
    destruct (N.eqb_spec (microsecond t2) 0); [lia|].
    destruct (N.eqb_spec (microsecond t1) 0).
    + reflexivity.
    + rewrite <- (app_nil_r (fraction_part t1)), <- (app_nil_r (fraction_part t2)).
      by apply differ_lt_str_lt, fraction_part_lt.
Qed.

(** X12: the keys of two clock readings are ordered as the readings are,
    unless the earlier one falls on a whole second (microsecond 0) and the
    later one lies in that same second. *)
Theorem keys_sort_chronologically (t1 t2 : datetime) :
  valid_datetime t1 -> valid_datetime t2 -> datetime_lt t1 t2 ->
  microsecond t1 <> 0 \/ ~ same_second t1 t2 ->
  str_lt (lit "raw-data/to_processed/spotify_raw_" ++ str_datetime t1 ++ lit ".json")
         (lit "raw-data/to_processed/spotify_raw_" ++ str_datetime t2 ++ lit ".json").
Proof.
  intros V1 V2 Hlt Hcorner. apply str_lt_app.
  rewrite (str_datetime_tail t1 V1), (str_datetime_tail t2 V2).
  rewrite <- !app_assoc.
  destruct (seconds_form_lt t1 t2 V1 V2 Hlt) as [Hd|[Hs Hus]].
  - by apply differ_lt_str_lt.
  - destruct Hcorner as [Hne|Hns]; [|done].
    rewrite (seconds_form_same_second t1 t2 Hs). apply str_lt_app.
    destruct (N.eqb_spec (microsecond t2) 0); [lia|].
    destruct (N.eqb_spec (microsecond t1) 0); [done|].
    by apply differ_lt_str_lt, fraction_part_lt.
Qed.

(** X13: a key stamped on a whole second sorts after every other key of
    that second, although its datetime is the earliest of them: ".json"
    follows the seconds where the others have ".ffffff". *)
Theorem whole_second_key_sorts_after_its_second (t1 t2 : datetime) :
  valid_datetime t1 -> valid_datetime t2 ->
  same_second t1 t2 -> microsecond t1 = 0 -> microsecond t2 <> 0 ->
  datetime_lt t1 t2 /\
  str_lt (lit "raw-data/to_processed/spotify_raw_" ++ str_datetime t2 ++ lit ".json")
         (lit "raw-data/to_processed/spotify_raw_" ++ str_datetime t1 ++ lit ".json").
Proof.
  intros V1 V2 Hs H1 H2. split.
  - destruct Hs as (Hy & Hm & Hd & Hh & Hmi & Hsec).
    unfold datetime_lt, datetime_fields. cbn [fields_lt].
    do 6 (right; split; [done|]). left. lia.
  - apply str_lt_app.
    rewrite (str_datetime_tail t1 V1), (str_datetime_tail t2 V2).
    rewrite <- !app_assoc.
    rewrite (seconds_form_same_second t1 t2 Hs). apply str_lt_app.
    destruct (N.eqb_spec (microsecond t2) 0); [done|].
    destruct (N.eqb_spec (microsecond t1) 0); [|done].
    unfold fraction_part. rewrite <- !app_assoc.
    change (str_lt (Char.dot :: fixed 6 (microsecond t2) ++ lit ".json")
                   (Char.dot :: lit "json")).
    right. split; [done|].
    change (fixed 6 (microsecond t2))
      with (fixed 5 (microsecond t2 / 10) ++ [digit (microsecond t2 mod 10)]).
    change (fixed 5 (microsecond t2 / 10))
      with (fixed 4 (microsecond t2 / 10 / 10) ++ [digit (microsecond t2 / 10 mod 10)]).
    change (fixed 4 (microsecond t2 / 10 / 10))
      with (fixed 3 (microsecond t2 / 10 / 10 / 10) ++
            [digit (microsecond t2 / 10 / 10 mod 10)]).
    change (fixed 3 (microsecond t2 / 10 / 10 / 10))
      with (fixed 2 (microsecond t2 / 10 / 10 / 10 / 10) ++
            [digit (microsecond t2 / 10 / 10 / 10 mod 10)]).
    change (fixed 2 (microsecond t2 / 10 / 10 / 10 / 10))
      with ([digit (microsecond t2 / 10 / 10 / 10 / 10 / 10 mod 10)] ++
            [digit (microsecond t2 / 10 / 10 / 10 / 10 mod 10)]).
    cbn [app]. left. unfold digit, Char.zero.
    change (N_of_ascii "j") with 106. lia.
Qed.
End Order.

(* ===================================================================== *)
(** ** The further properties on the test double *)
(* ===================================================================== *)

Lemma user_playlists_failure_aborts_witness :
  Mock.SpotifyException ∈
    omap user_playlists_failure
      (trace_of (invoke Mock.env PyNone PyNone Mock.playlists_down)) /\
  result_of (invoke Mock.env PyNone PyNone Mock.playlists_down)
    = Raised Mock.SpotifyException /\
  tracks_requests (trace_of (invoke Mock.env PyNone PyNone Mock.playlists_down)) = [] /\
  clock_readings (trace_of (invoke Mock.env PyNone PyNone Mock.playlists_down)) = [] /\
  put_calls (trace_of (invoke Mock.env PyNone PyNone Mock.playlists_down)) = [].
Proof.
  assert (Mock.SpotifyException ∈
            omap user_playlists_failure
              (trace_of (invoke Mock.env PyNone PyNone Mock.playlists_down)))
    as H by (vm_compute; left).
  split; [exact H|].
  exact (user_playlists_failure_aborts Mock.env PyNone PyNone Mock.playlists_down _ H).
Defined.

Lemma distinct_documents_distinct_bodies_witness :
  well_formed Mock.song_a = true /\ well_formed (PyList []) = true /\
  Mock.song_a <> PyList [] /\
  Json.dumps Mock.song_a <> Json.dumps (PyList []).
Proof.
  assert (Mock.song_a <> PyList []) as H by discriminate.
  split; [reflexivity|]. split; [reflexivity|]. split; [exact H|].
  exact (distinct_documents_distinct_bodies Mock.song_a (PyList []) eq_refl eq_refl H).
Defined.

Lemma keys_are_short_printable_ascii_witness :
  clock_readings (trace_of (invoke Mock.env PyNone PyNone Mock.good))
    = [Mock.running_clock 0] /\
  valid_datetime (Mock.running_clock 0) /\
  Forall (fun k => Forall printable k /\ length k = 65%nat)
         (keys (trace_of (invoke Mock.env PyNone PyNone Mock.good))).
Proof.
  split; [reflexivity|]. split; [exact valid_running_clock_0|].
  exact (keys_are_short_printable_ascii Mock.env PyNone PyNone Mock.good
           (Mock.running_clock 0) eq_refl valid_running_clock_0).
Defined.

Lemma running_clock_in_order :
  datetime_lt (Mock.running_clock 0) (Mock.running_clock 1).
Proof. vm_compute. tauto. Qed.

Lemma timestamps_sort_chronologically_witness :
  valid_datetime (Mock.running_clock 0) /\ valid_datetime (Mock.running_clock 1) /\
  datetime_lt (Mock.running_clock 0) (Mock.running_clock 1) /\
  str_lt (lit "2024-05-17 08:30:00.250000") (lit "2024-05-17 08:30:01.250000").
Proof.
  split; [exact valid_running_clock_0|]. split; [exact valid_running_clock_1|].
  split; [exact running_clock_in_order|].
  exact (timestamps_sort_chronologically _ _
           valid_running_clock_0 valid_running_clock_1 running_clock_in_order).
Defined.

Lemma keys_sort_chronologically_witness :
  microsecond (Mock.running_clock 0) <> 0%N /\
  str_lt (lit "raw-data/to_processed/spotify_raw_2024-05-17 08:30:00.250000.json")
         (lit "raw-data/to_processed/spotify_raw_2024-05-17 08:30:01.250000.json").
Proof.
  assert (microsecond (Mock.running_clock 0) <> 0%N) as H by discriminate.
  split; [exact H|].
  exact (keys_sort_chronologically _ _
           valid_running_clock_0 valid_running_clock_1 running_clock_in_order
           (or_introl H)).
Defined.

(** One microsecond past midnight. *)
Lemma valid_just_past_midnight : valid_datetime (mk_datetime 2024 1 1 0 0 0 1).
Proof. unfold valid_datetime. cbn. lia. Qed.

Lemma whole_second_key_sorts_after_its_second_witness :
  same_second (Mock.frozen_clock 0) (mk_datetime 2024 1 1 0 0 0 1) /\
  datetime_lt (Mock.frozen_clock 0) (mk_datetime 2024 1 1 0 0 0 1) /\
  str_lt (lit "raw-data/to_processed/spotify_raw_2024-01-01 00:00:00.000001.json")
         (lit "raw-data/to_processed/spotify_raw_2024-01-01 00:00:00.json").
Proof.
  assert (same_second (Mock.frozen_clock 0) (mk_datetime 2024 1 1 0 0 0 1)) as H
    by (repeat split).
  split; [exact H|].
  exact (whole_second_key_sorts_after_its_second _ _
           valid_frozen_clock valid_just_past_midnight H eq_refl
           ltac:(discriminate)).
Defined.
